(** * Online-Consultation: the booking-and-triage backend of [app.py]

    A shallow embedding of the Flask application [src/app.py] and the
    verification of its specification.  The file follows the source from top
    to bottom: the priority classifier, the notification sender, the
    appointment store, the booking endpoint, the listing endpoint and the two
    review endpoints; the theorems come after the definitions.

    Modelling conventions.
    - Python [str] values are [string]s; the text is taken to be ASCII, so
      [str.lower] is the map of [A-Z] onto [a-z].
    - The MongoDB collection is a finite map from [ObjectId] to documents.
    - The handlers run in a small state-and-exception monad over the world
      (collection, standard output, delivered mail): an exception keeps the
      effects made before it, as in Python.
    - What the process reads from outside (the clock, the fresh [ObjectId]
      made by the driver, the behaviour of the mail relay, the environment
      variables) is an explicit argument. *)

From Stdlib Require Import String Ascii List Permutation Sorted Bool Arith Lia.
From stdpp Require Import base option list gmap strings fin_maps.

Local Open Scope string_scope.

(** ** Python strings *)

Module Str.

(** [c.lower()] on one ASCII character. *)
Definition lower_char (c : ascii) : ascii :=
  let n := nat_of_ascii c in
  if ((65 <=? n)%nat && (n <=? 90)%nat)%bool then ascii_of_nat (n + 32) else c.

(** [s.lower()]. *)
Fixpoint lower (s : string) : string :=
  match s with
  | EmptyString => EmptyString
  | String c s' => String (lower_char c) (lower s')
  end.

(** [t.startswith(k)]. *)
Fixpoint startswith (k t : string) : bool :=
  match k, t with
  | EmptyString, _ => true
  | String _ _, EmptyString => false
  | String a k', String b t' => Ascii.eqb a b && startswith k' t'
  end.

(** [k in t] for two strings: [k] occurs in [t] at some offset. *)
Fixpoint contains (k t : string) : bool :=
  startswith k t ||
  match t with
  | EmptyString => false
  | String _ t' => contains k t'
  end.

(** [s[:n]]: the first [n] characters, the whole string when it is
    shorter. *)
Fixpoint take (n : nat) (s : string) : string :=
  match n, s with
  | O, _ => EmptyString
  | S _, EmptyString => EmptyString
  | S n', String c s' => String c (take n' s')
  end.

(** The mathematical reading of containment that the specification uses. *)
Definition Substring (k t : string) : Prop :=
  ∃ pre post, t = pre ++ k ++ post.

End Str.

(** [any(p(x) for x in xs)]. *)
Definition any {A} (p : A → bool) (xs : list A) : bool := existsb p xs.

(** [all(xs)] over already evaluated truth values. *)
Definition all (xs : list bool) : bool := forallb id xs.

(** ** Priority classifier *)

Definition urgent_keywords : list string :=
  ["emergency"; "severe"; "acute"; "urgent"; "critical"; "bleeding"; "chest pain"].

Definition high_keywords : list string :=
  ["pain"; "fever"; "infection"; "injury"].

Definition calculate_priority (issues : string) : string :=
  let issues_lower := Str.lower issues in
  if any (λ keyword, Str.contains keyword issues_lower) urgent_keywords then "High"
  else if any (λ keyword, Str.contains keyword issues_lower) high_keywords then "Medium"
  else "Low".

(** The text mentions one of the keywords: after lower-casing, one of them
    occurs in it as a substring. *)
Definition mentions (keywords : list string) (s : string) : Prop :=
  Exists (λ k, Str.Substring k (Str.lower s)) keywords.

(** ** Exceptions, the world and the handler monad *)

(** The exceptions that can travel through the handlers.  [MailError] stands
    for whatever [smtplib] or the [email] package raises; its text comes from
    the relay. *)
Inductive exn :=
| AttributeError (message : string)
| TypeError (message : string)
| InvalidId (oid : string)
| DuplicateKeyError (oid : string)
| MailError (message : string).

(** [str(e)]. *)
Definition str_exn (e : exn) : string :=
  match e with
  | AttributeError m => m
  | TypeError m => m
  | InvalidId oid =>
      "'" ++ oid ++ "' is not a valid ObjectId, it must be a 12-byte input or a 24-character hex string"
  | DuplicateKeyError oid =>
      "E11000 duplicate key error collection: doctor_consultation.patients_appointments index: _id_ dup key: { _id: ObjectId('"
      ++ oid ++ "') }"
  | MailError m => m
  end.

(** A document of [patients_appointments].  The four submitted values are
    Python values that are a [str] or [None]; [approved_at] and [rejected_at]
    are keys that a document has only after the matching [$set]; the [_id] is
    the key of the document in the collection. *)
Record appointment := Appointment {
  patient_name : option string;
  patient_email : option string;
  issues : option string;
  preferred_time : option string;
  priority : string;
  status : string;
  created_at : string;
  doctor_approved : bool;
  google_meet_link : option string;
  approved_at : option string;
  rejected_at : option string
}.

(** The HTML bodies are fixed templates around interpolated values; a body is
    represented by its template and the values interpolated into it. *)
Inductive email_body :=
| BookingConfirmation (patient_name preferred_time issues : option string) (priority : string)
| NewAppointmentRequest (patient_name patient_email issues preferred_time : option string)
    (priority : string)
| AppointmentConfirmed (patient_name preferred_time : option string) (meet_link : string)
| AppointmentUpdate (patient_name : option string) (reschedule_link : string).

Record email := Email {
  mail_from : option string;
  mail_to : option string;
  mail_subject : string;
  mail_body : email_body
}.

(** Process-wide configuration read at start-up, and the mail relay: [relay m]
    is [None] when the SMTP session for [m] goes through and [Some e] when any
    step of it raises [e]. *)
Record config := Config {
  EMAIL_USER : option string;
  DOCTOR_EMAIL : option string;
  relay : email → option exn
}.

Record world := World {
  db : gmap string appointment;
  stdout : list string;
  outbox : list email
}.

Definition initial : world := World ∅ [] [].

(** A computation returns the new world with either the exception raised or
    the value returned. *)
Definition M (A : Type) : Type := world → world * (exn + A).

Definition raise {A} (e : exn) : M A := λ w, (w, inl e).

#[global] Instance M_ret : MRet M := λ A x w, (w, inr x).

#[global] Instance M_bind : MBind M := λ A B f m w,
  match m w with
  | (w', inl e) => (w', inl e)
  | (w', inr x) => f x w'
  end.

(** A call that touches nothing of the world: it returns or raises. *)
Definition lift {A} (r : exn + A) : M A := λ w, (w, r).

(** [try: m  except Exception as e: h e]. *)
Definition try_except {A} (m : M A) (h : exn → M A) : M A := λ w,
  match m w with
  | (w', inl e) => h e w'
  | (w', inr x) => (w', inr x)
  end.

Definition print (line : string) : M unit := λ w,
  (World (db w) (stdout w ++ [line]) (outbox w), inr ()).

(** ** Notification sender *)

(** The SMTP session of [send_email]: it either delivers the message or
    raises. *)
Definition smtp_session (cfg : config) (msg : email) : M unit := λ w,
  match relay cfg msg with
  | Some e => (w, inl e)
  | None => (World (db w) (stdout w) (outbox w ++ [msg]), inr ())
  end.

Definition send_email (cfg : config) (to_email : option string) (subject : string)
    (body : email_body) : M bool :=
  try_except
    (let msg := Email (EMAIL_USER cfg) to_email subject body in
     smtp_session cfg msg;;
     mret true)
    (λ e, print ("Email error: " ++ str_exn e);; mret false).

(** ** Calendar stub *)

Definition create_calendly_booking (name email start_time : option string) : bool * string :=
  (true, "calendly_event_id").

(** ** Appointment store *)

Definition is_hex_digit (c : ascii) : bool :=
  let n := nat_of_ascii c in
  ((48 <=? n)%nat && (n <=? 57)%nat) || ((97 <=? n)%nat && (n <=? 102)%nat)
  || ((65 <=? n)%nat && (n <=? 70)%nat).

(** [ObjectId(s)] for a string: 24 hexadecimal digits, else [InvalidId].  An
    [ObjectId] is represented by its lower-case rendering, which is what
    [str(oid)] gives. *)
Definition ObjectId (s : string) : exn + string :=
  if (String.length s =? 24)%nat && forallb is_hex_digit (list_ascii_of_string s)
  then inr (Str.lower s)
  else inl (InvalidId s).

(** [collection.insert_one(doc)], [oid] being the identifier the driver made
    for the document; the unique index on [_id] refuses a second document
    with the same identifier. *)
Definition insert_one (oid : string) (doc : appointment) : M string := λ w,
  match db w !! oid with
  | Some _ => (w, inl (DuplicateKeyError oid))
  | None => (World (<[oid := doc]> (db w)) (stdout w) (outbox w), inr oid)
  end.

(** [collection.update_one({"_id": oid}, {"$set": ...})]; the result is the
    number of documents matched. *)
Definition update_one (oid : string) (set : appointment → appointment) : M nat := λ w,
  match db w !! oid with
  | Some doc => (World (<[oid := set doc]> (db w)) (stdout w) (outbox w), inr 1)
  | None => (w, inr 0)
  end.

(** [collection.find_one({"_id": oid})]. *)
Definition find_one (oid : string) : M (option appointment) := λ w,
  (w, inr (db w !! oid)).

(** A stable sort: [x] is put before the first element it is not after. *)
Fixpoint insert_sorted {A} (le : A → A → bool) (x : A) (l : list A) : list A :=
  match l with
  | [] => [x]
  | y :: l' => if le x y then x :: l else y :: insert_sorted le x l'
  end.

Definition stable_sort {A} (le : A → A → bool) (l : list A) : list A :=
  foldr (insert_sorted le) [] l.

(** [list(collection.find().sort("created_at", -1))]: every document with
    its [_id], latest [created_at] first; strings compare byte by byte. *)
Definition find_sort_created_at_desc : M (list (string * appointment)) := λ w,
  (w, inr (stable_sort (λ x y, (created_at y.2 <=? created_at x.2)%string)
             (map_to_list (db w)))).

(** [doc[field]] on the result of [find_one]: [None] is not subscriptable. *)
Definition subscript {A} (doc : option appointment) (field : appointment → A) : M A :=
  match doc with
  | Some d => mret (field d)
  | None => raise (TypeError "'NoneType' object is not subscriptable")
  end.

(** ** HTTP responses *)

(** The JSON bodies the handlers build:
    [{"success": s, "message": m}],
    [{"success": True, "message": m, "appointment_id": i}] and
    [{"success": True, "appointments": l}]. *)
Inductive payload :=
| Message (success : bool) (message : string)
| Booked (message : string) (appointment_id : string)
| Appointments (appointments : list (string * appointment)).

Record response := Response { body : payload; status_code : nat }.

(** [jsonify(p)] alone is a 200 response. *)
Definition jsonify (p : payload) : response := Response p 200.

Definition success (r : response) : bool :=
  match body r with
  | Message s _ => s
  | Booked _ _ => true
  | Appointments _ => true
  end.

(** ** Booking *)

(** The keys of the request that [book_appointment] reads and requires. *)
Definition required_fields : list string :=
  ["patient_name"; "patient_email"; "issues"; "preferred_time"].

(** Truth value of a Python value that is a [str] or [None]. *)
Definition truthy (v : option string) : bool :=
  match v with
  | Some s => negb (s =? "")%string
  | None => false
  end.

(** [f(v)] where [f] starts with [v.lower()]: [None] has no such method. *)
Definition call_on_str {A} (f : string → A) (v : option string) : M A :=
  match v with
  | Some s => mret (f s)
  | None => raise (AttributeError "'NoneType' object has no attribute 'lower'")
  end.

(** [POST /api/book-appointment] with the JSON object [data]; [now] is
    [datetime.utcnow().isoformat()] and [oid] the identifier made for the new
    document. *)
Definition book_appointment (cfg : config) (data : gmap string string) (now oid : string)
    : M response :=
  try_except
    (let patient_name := data !! "patient_name" in
     let patient_email := data !! "patient_email" in
     let issues := data !! "issues" in
     let preferred_time := data !! "preferred_time" in
     if negb (all [truthy patient_name; truthy patient_email; truthy issues;
                   truthy preferred_time])
     then mret (Response (Message false "All fields are required") 400)
     else
       priority ← call_on_str calculate_priority issues;
       let appointment :=
         Appointment patient_name patient_email issues preferred_time priority
           "pending" now false None None None in
       inserted_id ← insert_one oid appointment;
       let calendly_result := create_calendly_booking patient_name patient_email preferred_time in
       send_email cfg patient_email "Appointment Booking Received"
         (BookingConfirmation patient_name preferred_time issues priority);;
       send_email cfg (DOCTOR_EMAIL cfg) ("New Appointment - Priority: " ++ priority)
         (NewAppointmentRequest patient_name patient_email issues preferred_time priority);;
       mret (jsonify (Booked "Form submitted successfully! Email will be sent shortly"
                        inserted_id)))
    (λ e, print ("Error: " ++ str_exn e);;
          mret (Response (Message false (str_exn e)) 500)).

(** ** Listing *)

Definition priority_order : gmap string nat :=
  {[ "High" := 0; "Medium" := 1; "Low" := 2 ]}.

(** The sort key [priority_order.get(x["priority"], 3)]. *)
Definition priority_rank (x : string * appointment) : nat :=
  default 3 (priority_order !! priority x.2).

(** [GET /api/appointments]. *)
Definition get_appointments : M response :=
  try_except
    (appointments ← find_sort_created_at_desc;
     let appointments :=
       stable_sort (λ x y, priority_rank x <=? priority_rank y)%nat appointments in
     mret (jsonify (Appointments appointments)))
    (λ e, mret (Response (Message false (str_exn e)) 500)).

(** ** Review *)

Definition set_approved (meet_link now : string) (d : appointment) : appointment :=
  Appointment (patient_name d) (patient_email d) (issues d) (preferred_time d)
    (priority d) "approved" (created_at d) true (Some meet_link) (Some now) (rejected_at d).

Definition set_rejected (now : string) (d : appointment) : appointment :=
  Appointment (patient_name d) (patient_email d) (issues d) (preferred_time d)
    (priority d) "rejected" (created_at d) false (google_meet_link d) (approved_at d) (Some now).

Definition meet_link_of (appointment_id : string) : string :=
  "https://meet.google.com/" ++ Str.take 10 appointment_id.

(** [POST /api/appointments/<appointment_id>/approve]. *)
Definition approve_appointment (cfg : config) (appointment_id now : string) : M response :=
  try_except
    (let meet_link := meet_link_of appointment_id in
     oid ← lift (ObjectId appointment_id);
     result ← update_one oid (set_approved meet_link now);
     oid ← lift (ObjectId appointment_id);
     appointment ← find_one oid;
     name ← subscript appointment patient_name;
     time ← subscript appointment preferred_time;
     to_email ← subscript appointment patient_email;
     send_email cfg to_email "Appointment Confirmed" (AppointmentConfirmed name time meet_link);;
     mret (jsonify (Message true "Appointment approved")))
    (λ e, mret (Response (Message false (str_exn e)) 500)).

Definition reschedule_link : string :=
  "https://online-dr-consultation.onrender.com/api/appointments".

(** [POST /api/appointments/<appointment_id>/reject]. *)
Definition reject_appointment (cfg : config) (appointment_id now : string) : M response :=
  try_except
    (oid ← lift (ObjectId appointment_id);
     result ← update_one oid (set_rejected now);
     oid ← lift (ObjectId appointment_id);
     appointment ← find_one oid;
     name ← subscript appointment patient_name;
     to_email ← subscript appointment patient_email;
     send_email cfg to_email "Appointment Rescheduling Required"
       (AppointmentUpdate name reschedule_link);;
     mret (jsonify (Message true "Appointment rejected")))
    (λ e, mret (Response (Message false (str_exn e)) 500)).

(** ** The system as a transition system *)

Inductive request :=
| BookAppointment (data : gmap string string) (now oid : string)
| GetAppointments
| ApproveAppointment (appointment_id now : string)
| RejectAppointment (appointment_id now : string).

Definition handle (cfg : config) (req : request) : M response :=
  match req with
  | BookAppointment data now oid => book_appointment cfg data now oid
  | GetAppointments => get_appointments
  | ApproveAppointment appointment_id now => approve_appointment cfg appointment_id now
  | RejectAppointment appointment_id now => reject_appointment cfg appointment_id now
  end.

(** The world after a request, and the response to it (a handler catches
    every exception, see [handle_returns]). *)
Definition after (cfg : config) (req : request) (w : world) : world := (handle cfg req w).1.

Definition reply (cfg : config) (req : request) (w : world) : option response :=
  match (handle cfg req w).2 with
  | inr r => Some r
  | inl _ => None
  end.

(** The worlds the service can be in: it starts with an empty collection and
    serves one request after the other, the relay behaving in any way. *)
Inductive reachable : world → Prop :=
| reachable_initial : reachable initial
| reachable_after cfg req w : reachable w → reachable (after cfg req w).

(** ** Properties of documents and listings used in the statements *)

(** What the life cycle keeps true of a document: the status is one of the
    three, [doctor_approved] repeats it, the time stamps record the reviews
    made, and the meeting link is there exactly when an approval was made. *)
Definition lifecycle_ok (d : appointment) : Prop :=
  status d ∈ ["pending"; "approved"; "rejected"] ∧
  (doctor_approved d = true ↔ status d = "approved") ∧
  (status d = "pending" → approved_at d = None ∧ rejected_at d = None) ∧
  (status d = "approved" → is_Some (approved_at d)) ∧
  (status d = "rejected" → is_Some (rejected_at d)) ∧
  (is_Some (google_meet_link d) ↔ is_Some (approved_at d)).

(** [x] may stand before [y] in the listing: its priority rank is smaller,
    or the ranks are equal and it was not created before [y]. *)
Definition listed_before (x y : string * appointment) : Prop :=
  priority_rank x < priority_rank y ∨
  (priority_rank x = priority_rank y ∧ (created_at y.2 <=? created_at x.2)%string = true).

(** ** A sample run *)

Module Sample.

(** A relay that delivers everything, and one that is down. *)
Definition cfg : config :=
  Config (Some "clinic@example.org") (Some "doctor@example.org") (λ _, None).

Definition offline : config :=
  Config (Some "clinic@example.org") (Some "doctor@example.org")
    (λ _, Some (MailError "[Errno 111] Connection refused")).

Definition data : gmap string string :=
  {[ "patient_name" := "Ann Lee"; "patient_email" := "ann@example.org";
     "issues" := "Severe chest pain since this morning";
     "preferred_time" := "2024-01-16T10:00" ]}.

(** The same request without [patient_email]. *)
Definition no_email : gmap string string := delete "patient_email" data.

Definition oid : string := "65a4f2c09d3e7b0012ab34cd".

Definition book : request := BookAppointment data "2024-01-15T09:30:00.120000" oid.
Definition approve : request := ApproveAppointment oid "2024-01-15T11:00:00.000500".
Definition reject : request := RejectAppointment oid "2024-01-15T12:00:00.250000".

(** The record that [book] files. *)
Definition record : appointment :=
  Appointment (Some "Ann Lee") (Some "ann@example.org")
    (Some "Severe chest pain since this morning") (Some "2024-01-16T10:00")
    "High" "pending" "2024-01-15T09:30:00.120000" false None None None.

Definition booked : world := after cfg book initial.
Definition approved : world := after cfg approve booked.
Definition rejected : world := after cfg reject approved.

End Sample.

(** ** Notions used in the further properties *)

(** The relay lets the message through. *)
Definition delivered (cfg : config) (m : email) : bool :=
  match relay cfg m with
  | None => true
  | Some _ => false
  end.

(** What [send_email] prints for the message: nothing when it goes through,
    one line with the text of the exception when it does not. *)
Definition mail_log (cfg : config) (m : email) : list string :=
  match relay cfg m with
  | None => []
  | Some e => ["Email error: " ++ str_exn e]
  end.

Definition is_lower_hex_digit (c : ascii) : bool :=
  let n := nat_of_ascii c in
  ((48 <=? n)%nat && (n <=? 57)%nat) || ((97 <=? n)%nat && (n <=? 102)%nat).

(** The rendering of an identifier made by the driver: 24 hexadecimal digits
    in lower case. *)
Definition driver_made (oid : string) : bool :=
  (String.length oid =? 24)%nat && forallb is_lower_hex_digit (list_ascii_of_string oid).

(** The records of a listing that have priority [p]. *)
Definition with_priority (p : string) (l : list (string * appointment))
    : list (string * appointment) :=
  filter (λ x, priority x.2 = p) l.

(** A second sample: two more patients, and an identifier that is too short. *)
Module Ward.

Definition fever : gmap string string :=
  {[ "patient_name" := "Bo Chen"; "patient_email" := "bo@example.org";
     "issues" := "I have a mild fever"; "preferred_time" := "2024-01-17T14:30" ]}.





Definition short_id : string := "65a4f2c0".

End Ward.

(** * Theorems *)

Section StrFacts.

Lemma startswith_spec k t :
  Str.startswith k t = true ↔ ∃ post, t = k ++ post.
Proof.
  revert t; induction k as [|a k IH]; intros t; simpl.
  - split; [intros _; by exists t | done].
  - destruct t as [|b t]; simpl.
    + split; [done | intros [post H]; discriminate].
    + rewrite andb_true_iff, IH, Ascii.eqb_eq. split.
      * intros [-> [post ->]]. by exists post.
      * intros [post H]. injection H as -> ->. eauto.
Qed.

Lemma contains_spec k t :
  Str.contains k t = true ↔ Str.Substring k t.
Proof.
  unfold Str.Substring. induction t as [|b t IH]; simpl.
  - rewrite orb_false_r, startswith_spec. split.
    + intros [post H]. by exists "", post.
    + intros [pre [post H]]. destruct pre; simpl in H; [eauto | discriminate].
  - rewrite orb_true_iff, startswith_spec, IH. split.
    + intros [[post H] | [pre [post H]]].
      * by exists "", post.
      * exists (String b pre), post. simpl. by rewrite H.
    + intros [pre [post H]]. destruct pre as [|c pre]; simpl in H.
      * left. eauto.
      * right. injection H as _ ->. eauto.
Qed.

Lemma any_contains_spec ks t :
  any (λ k, Str.contains k t) ks = true ↔ Exists (λ k, Str.Substring k t) ks.
Proof.
  unfold any. rewrite existsb_exists, Exists_exists.
  split; intros [k [Hin H]]; exists k.
  - split; [by apply list_elem_of_In | by apply contains_spec].
  - split; [by apply list_elem_of_In | by apply contains_spec].
Qed.

End StrFacts.

(** ** The classifier *)

Section Classifier.

Lemma calculate_priority_cases s :
  calculate_priority s =
    if any (λ k, Str.contains k (Str.lower s)) urgent_keywords then "High"
    else if any (λ k, Str.contains k (Str.lower s)) high_keywords then "Medium"
    else "Low".
Proof. reflexivity. Qed.


End Classifier.

(** ** Running the monad *)

Ltac unfold_M :=
  repeat (progress unfold mbind, M_bind, mret, M_ret, try_except, lift, raise, print,
            insert_one, update_one, find_one, subscript, call_on_str, jsonify in * ).

Section Sender.

Lemma send_email_run cfg to_email subject body w :
  send_email cfg to_email subject body w =
    let msg := Email (EMAIL_USER cfg) to_email subject body in
    match relay cfg msg with
    | None => (World (db w) (stdout w) (outbox w ++ [msg]), inr true)
    | Some e =>
        (World (db w) (stdout w ++ ["Email error: " ++ str_exn e]) (outbox w), inr false)
    end.
Proof.
  unfold send_email, smtp_session. unfold_M. simpl.
  by destruct (relay cfg _).
Qed.

(** [send_email] always returns a boolean, and leaves the collection as it
    is. *)
Lemma send_email_returns cfg to_email subject body w :
  ∃ w' b, send_email cfg to_email subject body w = (w', inr b) ∧ db w' = db w.
Proof.
  rewrite send_email_run. simpl. destruct (relay cfg _); eauto.
Qed.

End Sender.

(** Runs the [send_email] calls at the head of the goal, one case for each
    behaviour of the relay. *)
Ltac run_emails cfg :=
  repeat (rewrite send_email_run; simpl;
          match goal with
          | |- context [relay cfg ?m] => destruct (relay cfg m); simpl
          end).

(** ** Booking *)

Section Booking.

Lemma truthy_Some_nonempty v : truthy v = true ↔ ∃ s, v = Some s ∧ s ≠ "".
Proof.
  destruct v as [s|]; simpl.
  - rewrite negb_true_iff, String.eqb_neq. split.
    + intros Hs. by exists s.
    + by intros [s' [[= ->] Hs]].
  - split; [done | by intros [s [? _]]].
Qed.

Lemma all_required_false (data : gmap string string) f :
  f ∈ required_fields → truthy (data !! f) = false →
  all [truthy (data !! "patient_name"); truthy (data !! "patient_email");
       truthy (data !! "issues"); truthy (data !! "preferred_time")] = false.
Proof.
  unfold required_fields, all. rewrite !elem_of_cons, elem_of_nil. simpl.
  intros [->|[->|[->|[->|[]]]]] ->; simpl; by rewrite ?andb_false_r.
Qed.

Lemma all_required_true (data : gmap string string) :
  (∀ f, f ∈ required_fields → ∃ v, data !! f = Some v ∧ v ≠ "") →
  all [truthy (data !! "patient_name"); truthy (data !! "patient_email");
       truthy (data !! "issues"); truthy (data !! "preferred_time")] = true.
Proof.
  intros H. unfold all. simpl.
  rewrite !(proj2 (truthy_Some_nonempty _)); [done|..];
    apply H; unfold required_fields; rewrite !elem_of_cons; auto.
Qed.

(** C2.  A booking request in which one of the four required fields is
    missing or is the empty string is answered with status 400 and the body
    success=false, message="All fields are required"; the world, and so the
    appointment store, is left exactly as it was. *)
Theorem book_appointment_missing_field cfg (data : gmap string string) now oid w f :
  f ∈ required_fields →
  data !! f = None ∨ data !! f = Some "" →
  book_appointment cfg data now oid w =
    (w, inr (Response (Message false "All fields are required") 400)).
Proof.
  intros Hf Hv.
  assert (truthy (data !! f) = false) as Hfalse by (by destruct Hv as [-> | ->]).
  unfold book_appointment. unfold_M.
  by rewrite (all_required_false data f Hf Hfalse).
Qed.

(** C3.  A booking request whose four required fields are non-empty is
    always answered; it succeeds exactly when the store accepts the insert
    (the identifier made for the document is not taken), and then the store
    is the old one with exactly one more record, filed under that
    identifier, with status pending, doctor_approved false, no meeting
    link, created_at the time of creation and the priority that the
    classifier gives to the submitted issue text; the response is the
    success response carrying that identifier. *)
Theorem book_appointment_inserts cfg (data : gmap string string) now oid w :
  (∀ f, f ∈ required_fields → ∃ v, data !! f = Some v ∧ v ≠ "") →
  ∃ w' resp,
    book_appointment cfg data now oid w = (w', inr resp) ∧
    (success resp = true ↔ db w !! oid = None) ∧
    (success resp = true →
       ∃ doc issue_text,
         db w' = <[oid := doc]> (db w) ∧
         size (db w') = S (size (db w)) ∧
         status doc = "pending" ∧
         doctor_approved doc = false ∧
         google_meet_link doc = None ∧
         created_at doc = now ∧
         data !! "issues" = Some issue_text ∧
         priority doc = calculate_priority issue_text ∧
         patient_name doc = data !! "patient_name" ∧
         patient_email doc = data !! "patient_email" ∧
         issues doc = data !! "issues" ∧
         preferred_time doc = data !! "preferred_time" ∧
         approved_at doc = None ∧ rejected_at doc = None ∧
         resp = Response
                  (Booked "Form submitted successfully! Email will be sent shortly" oid)
                  200).
Proof.
  intros Hreq.
  destruct (Hreq "issues") as [issue_text [Hissues _]];
    [unfold required_fields; rewrite !elem_of_cons; auto|].
  unfold book_appointment. unfold_M.
  rewrite (all_required_true data Hreq), Hissues. simpl.
  destruct (db w !! oid) as [old|] eqn:Hold; simpl.
  - eexists _, _. split; [reflexivity|]. simpl. split; [done|]. done.
  - run_emails cfg;
      (eexists _, _; split; [reflexivity|]; simpl; split; [done|]; intros _;
       eexists _, issue_text; split; [reflexivity|];
       split; [by apply map_size_insert_None|]; by rewrite ?Hissues).
Qed.

End Booking.

(** ** Review *)

Section Review.

Lemma take_prefix n s : ∃ rest, s = Str.take n s ++ rest.
Proof.
  revert s; induction n as [|n IH]; intros s; simpl.
  - by exists s.
  - destruct s as [|c s]; [by exists ""|].
    destruct (IH s) as [rest Hrest]. exists rest.
    change (String c s = String c (Str.take n s ++ rest)). by f_equal.
Qed.

Lemma take_length (n : nat) s :
  (n ≤ String.length s)%nat → String.length (Str.take n s) = n.
Proof.
  revert s; induction n as [|n IH]; intros s; simpl; [done|].
  destruct s as [|c s]; simpl; [lia|]. intros H. rewrite IH; lia.
Qed.

Lemma ObjectId_length aid oid : ObjectId aid = inr oid → String.length aid = 24.
Proof.
  unfold ObjectId.
  destruct (String.length aid =? 24)%nat eqn:Hlen; simpl; [|done].
  intros _. by apply Nat.eqb_eq.
Qed.

(** Approve on an identifier that resolves to a record, whatever the state
    of the record. *)
Lemma approve_appointment_existing cfg aid now w oid doc :
  ObjectId aid = inr oid → db w !! oid = Some doc →
  ∃ w',
    approve_appointment cfg aid now w =
      (w', inr (Response (Message true "Appointment approved") 200)) ∧
    db w' = <[oid := set_approved (meet_link_of aid) now doc]> (db w).
Proof.
  intros Hoid Hdoc. unfold approve_appointment. unfold_M.
  rewrite Hoid. simpl. rewrite Hdoc. simpl. rewrite lookup_insert_eq. simpl.
  run_emails cfg; by eexists.
Qed.

Lemma reject_appointment_existing cfg aid now w oid doc :
  ObjectId aid = inr oid → db w !! oid = Some doc →
  ∃ w',
    reject_appointment cfg aid now w =
      (w', inr (Response (Message true "Appointment rejected") 200)) ∧
    db w' = <[oid := set_rejected now doc]> (db w).
Proof.
  intros Hoid Hdoc. unfold reject_appointment. unfold_M.
  rewrite Hoid. simpl. rewrite Hdoc. simpl. rewrite lookup_insert_eq. simpl.
  run_emails cfg; by eexists.
Qed.

(** An identifier that is well formed but is not in the collection. *)
Lemma approve_appointment_absent cfg aid now w oid :
  ObjectId aid = inr oid → db w !! oid = None →
  approve_appointment cfg aid now w =
    (w, inr (Response (Message false "'NoneType' object is not subscriptable") 500)).
Proof.
  intros Hoid Hdoc. unfold approve_appointment. unfold_M.
  rewrite Hoid. simpl. by repeat (rewrite Hdoc; simpl).
Qed.

Lemma reject_appointment_absent cfg aid now w oid :
  ObjectId aid = inr oid → db w !! oid = None →
  reject_appointment cfg aid now w =
    (w, inr (Response (Message false "'NoneType' object is not subscriptable") 500)).
Proof.
  intros Hoid Hdoc. unfold reject_appointment. unfold_M.
  rewrite Hoid. simpl. by repeat (rewrite Hdoc; simpl).
Qed.

(** A path segment that is no [ObjectId] at all: the handlers fail before
    they reach the store. *)
Lemma approve_appointment_malformed cfg aid now w e :
  ObjectId aid = inl e →
  approve_appointment cfg aid now w = (w, inr (Response (Message false (str_exn e)) 500)).
Proof. intros Hoid. unfold approve_appointment. unfold_M. by rewrite Hoid. Qed.

Lemma reject_appointment_malformed cfg aid now w e :
  ObjectId aid = inl e →
  reject_appointment cfg aid now w = (w, inr (Response (Message false (str_exn e)) 500)).
Proof. intros Hoid. unfold reject_appointment. unfold_M. by rewrite Hoid. Qed.

(** C4.  Approve on an identifier that resolves to an existing pending
    record answers "Appointment approved" and replaces that record, and no
    other, by one with status approved, doctor_approved true, approved_at
    the time of the call and a meeting link that is
    "https://meet.google.com/" followed by the first 10 characters of the
    identifier; the other fields keep their values. *)
Theorem approve_appointment_pending cfg aid now w oid doc :
  ObjectId aid = inr oid → db w !! oid = Some doc → status doc = "pending" →
  ∃ w' doc' prefix rest,
    approve_appointment cfg aid now w =
      (w', inr (Response (Message true "Appointment approved") 200)) ∧
    db w' = <[oid := doc']> (db w) ∧
    status doc' = "approved" ∧
    doctor_approved doc' = true ∧
    approved_at doc' = Some now ∧
    google_meet_link doc' = Some ("https://meet.google.com/" ++ prefix) ∧
    aid = prefix ++ rest ∧ String.length prefix = 10 ∧
    patient_name doc' = patient_name doc ∧
    patient_email doc' = patient_email doc ∧
    issues doc' = issues doc ∧
    preferred_time doc' = preferred_time doc ∧
    priority doc' = priority doc ∧
    created_at doc' = created_at doc ∧
    rejected_at doc' = rejected_at doc.
Proof.
  intros Hoid Hdoc _.
  destruct (approve_appointment_existing cfg aid now w oid doc Hoid Hdoc) as [w' [Hrun Hdb]].
  destruct (take_prefix 10 aid) as [rest Hrest].
  exists w', (set_approved (meet_link_of aid) now doc), (Str.take 10 aid), rest.
  repeat split; try done.
  apply take_length. rewrite (ObjectId_length aid oid Hoid). lia.
Qed.

End Review.

(** ** The life cycle of a record *)

Section Lifecycle.

(** What one request does to the collection. *)
Lemma after_db cfg req w :
  match req with
  | BookAppointment data now oid =>
      db (after cfg req w) = db w ∨
      (db w !! oid = None ∧
       ∃ p, db (after cfg req w) =
              <[oid := Appointment (data !! "patient_name") (data !! "patient_email")
                         (data !! "issues") (data !! "preferred_time") p
                         "pending" now false None None None]> (db w))
  | GetAppointments => db (after cfg req w) = db w
  | ApproveAppointment aid now =>
      (db (after cfg req w) = db w ∧ ∀ oid, ObjectId aid = inr oid → db w !! oid = None) ∨
      (∃ oid doc, ObjectId aid = inr oid ∧ db w !! oid = Some doc ∧
         db (after cfg req w) = <[oid := set_approved (meet_link_of aid) now doc]> (db w))
  | RejectAppointment aid now =>
      (db (after cfg req w) = db w ∧ ∀ oid, ObjectId aid = inr oid → db w !! oid = None) ∨
      (∃ oid doc, ObjectId aid = inr oid ∧ db w !! oid = Some doc ∧
         db (after cfg req w) = <[oid := set_rejected now doc]> (db w))
  end.
Proof.
  unfold after. destruct req as [data now oid| |aid now|aid now]; simpl.
  - unfold book_appointment. unfold_M.
    destruct (all _); simpl; [|by left].
    destruct (data !! "issues") as [issue_text|]; simpl; [|by left].
    destruct (db w !! oid) eqn:Hold; simpl; [by left|].
    right. split; [done|]. exists (calculate_priority issue_text).
    run_emails cfg; done.
  - reflexivity.
  - destruct (ObjectId aid) as [e|oid] eqn:Hoid.
    + rewrite (approve_appointment_malformed cfg aid now w e Hoid). by left.
    + destruct (db w !! oid) as [doc|] eqn:Hdoc.
      * destruct (approve_appointment_existing cfg aid now w oid doc Hoid Hdoc)
          as [w' [-> Hdb]].
        right. by exists oid, doc.
      * rewrite (approve_appointment_absent cfg aid now w oid Hoid Hdoc).
        left. split; [done|]. by intros ? [= <-].
  - destruct (ObjectId aid) as [e|oid] eqn:Hoid.
    + rewrite (reject_appointment_malformed cfg aid now w e Hoid). by left.
    + destruct (db w !! oid) as [doc|] eqn:Hdoc.
      * destruct (reject_appointment_existing cfg aid now w oid doc Hoid Hdoc)
          as [w' [-> Hdb]].
        right. by exists oid, doc.
      * rewrite (reject_appointment_absent cfg aid now w oid Hoid Hdoc).
        left. split; [done|]. by intros ? [= <-].
Qed.

Lemma lifecycle_ok_new pn pe i pt p now :
  lifecycle_ok (Appointment pn pe i pt p "pending" now false None None None).
Proof.
  unfold lifecycle_ok. simpl. rewrite !elem_of_cons.
  repeat split; auto; try done; by intros [? ?].
Qed.

Lemma lifecycle_ok_set_approved link now d :
  lifecycle_ok d → lifecycle_ok (set_approved link now d).
Proof.
  unfold lifecycle_ok. simpl. rewrite !elem_of_cons.
  intros _. repeat split; auto; try done; eauto.
Qed.

Lemma lifecycle_ok_set_rejected now d :
  lifecycle_ok d → lifecycle_ok (set_rejected now d).
Proof.
  unfold lifecycle_ok. simpl. rewrite !elem_of_cons.
  intros (_ & _ & _ & _ & _ & Hlink).
  repeat split; auto; try done; eauto; apply Hlink.
Qed.

Lemma reachable_lifecycle_ok w :
  reachable w → ∀ i d, db w !! i = Some d → lifecycle_ok d.
Proof.
  induction 1 as [|cfg req w Hw IH]; intros i d Hd.
  - simpl in Hd. by rewrite lookup_empty in Hd.
  - pose proof (after_db cfg req w) as Hstep.
    destruct req as [data now oid| |aid now|aid now].
    + destruct Hstep as [Hsame | [_ [p Hins]]].
      * rewrite Hsame in Hd. eauto.
      * rewrite Hins in Hd. apply lookup_insert_Some in Hd as [[_ <-] | [_ Hd]].
        -- apply lifecycle_ok_new.
        -- eauto.
    + rewrite Hstep in Hd. eauto.
    + destruct Hstep as [[Hsame _] | (oid & doc & _ & Hdoc & Hupd)].
      * rewrite Hsame in Hd. eauto.
      * rewrite Hupd in Hd. apply lookup_insert_Some in Hd as [[_ <-] | [_ Hd]].
        -- apply lifecycle_ok_set_approved. eauto.
        -- eauto.
    + destruct Hstep as [[Hsame _] | (oid & doc & _ & Hdoc & Hupd)].
      * rewrite Hsame in Hd. eauto.
      * rewrite Hupd in Hd. apply lookup_insert_Some in Hd as [[_ <-] | [_ Hd]].
        -- apply lifecycle_ok_set_rejected. eauto.
        -- eauto.
Qed.

End Lifecycle.

Section Transitions.

Lemma sample_booked_reachable : reachable Sample.booked.
Proof. apply reachable_after, reachable_initial. Qed.

Lemma sample_approved_reachable : reachable Sample.approved.
Proof. apply reachable_after, sample_booked_reachable. Qed.

Lemma sample_rejected_reachable : reachable Sample.rejected.
Proof. apply reachable_after, sample_approved_reachable. Qed.

Lemma sample_booked_record :
  ∃ d, db Sample.booked !! Sample.oid = Some d ∧ status d = "pending".
Proof. eexists. split; vm_compute; reflexivity. Qed.

Lemma sample_approved_record :
  ∃ d, db Sample.approved !! Sample.oid = Some d ∧ status d = "approved".
Proof. eexists. split; vm_compute; reflexivity. Qed.

Lemma sample_rejected_record :
  ∃ d, db Sample.rejected !! Sample.oid = Some d ∧
       status d = "rejected" ∧
       google_meet_link d = Some "https://meet.google.com/65a4f2c09d".
Proof. eexists. repeat split; vm_compute; reflexivity. Qed.

(** C5.  Reject on an identifier that resolves to an existing pending
    record of a reachable store answers "Appointment rejected" and replaces
    that record, and no other, by one with status rejected, doctor_approved
    false and rejected_at the time of the call; the meeting link is not
    touched and so is still null; the other fields keep their values. *)
Theorem reject_appointment_pending cfg aid now w oid doc :
  reachable w →
  ObjectId aid = inr oid → db w !! oid = Some doc → status doc = "pending" →
  ∃ w' doc',
    reject_appointment cfg aid now w =
      (w', inr (Response (Message true "Appointment rejected") 200)) ∧
    db w' = <[oid := doc']> (db w) ∧
    status doc' = "rejected" ∧
    doctor_approved doc' = false ∧
    rejected_at doc' = Some now ∧
    google_meet_link doc' = google_meet_link doc ∧
    google_meet_link doc' = None ∧
    patient_name doc' = patient_name doc ∧
    patient_email doc' = patient_email doc ∧
    issues doc' = issues doc ∧
    preferred_time doc' = preferred_time doc ∧
    priority doc' = priority doc ∧
    created_at doc' = created_at doc ∧
    approved_at doc' = approved_at doc.
Proof.
  intros Hw Hoid Hdoc Hpending.
  destruct (reject_appointment_existing cfg aid now w oid doc Hoid Hdoc) as [w' [Hrun Hdb]].
  exists w', (set_rejected now doc). repeat split; try done. simpl.
  destruct (reachable_lifecycle_ok w Hw oid doc Hdoc) as (_ & _ & Hp & _ & _ & Hlink).
  destruct (Hp Hpending) as [Happroved _]. rewrite Happroved in Hlink.
  destruct (google_meet_link doc) as [link|]; [|done].
  destruct (proj1 Hlink (mk_is_Some _ _ eq_refl)) as [? [=]].
Qed.

(** The claim that the meeting link is there exactly when the status is
    approved fails: a record approved and then rejected keeps its link. *)
Lemma meeting_link_iff_approved_fails :
  ¬ (∀ w, reachable w → ∀ i d, db w !! i = Some d →
       (google_meet_link d ≠ None ↔ status d = "approved")).
Proof.
  intros H. destruct sample_rejected_record as (d & Hd & Hstatus & Hlink).
  destruct (H _ sample_rejected_reachable _ _ Hd) as [Habs _].
  rewrite Hstatus, Hlink in Habs. by discriminate Habs.
Qed.

(** C7, as the code has it.  In every store state reachable from the empty
    store, each record satisfies: if its status is approved the meeting
    link is non-null, if its status is pending the meeting link is null,
    and the meeting link is non-null exactly when the record has been
    approved at some time (approved_at is set). *)
Theorem meeting_link_invariant w i d :
  reachable w → db w !! i = Some d →
  (status d = "approved" → google_meet_link d ≠ None) ∧
  (status d = "pending" → google_meet_link d = None) ∧
  (google_meet_link d ≠ None ↔ approved_at d ≠ None).
Proof.
  intros Hw Hd.
  destruct (reachable_lifecycle_ok w Hw i d Hd) as (_ & _ & Hp & Ha & _ & Hlink).
  rewrite <- !not_eq_None_Some in Hlink. repeat split.
  - intros Hs. apply Hlink. apply not_eq_None_Some. auto.
  - intros Hs. destruct (Hp Hs) as [Hnone _].
    destruct (google_meet_link d) as [l|]; [|done].
    exfalso. by apply (proj1 Hlink).
  - apply Hlink.
  - apply Hlink.
Qed.

(** The claim that a status only ever moves from pending to approved or
    to rejected fails: Reject on an approved record makes it rejected. *)
Lemma only_pending_transitions_fails :
  ¬ (∀ cfg req w i d d',
       reachable w → db w !! i = Some d → db (after cfg req w) !! i = Some d' →
       status d' ≠ status d →
       status d = "pending" ∧ (status d' = "approved" ∨ status d' = "rejected")).
Proof.
  intros H.
  destruct sample_approved_record as (d & Hd & Hstatus).
  destruct sample_rejected_record as (d' & Hd' & Hstatus' & _).
  destruct (H Sample.cfg Sample.reject _ _ _ _ sample_approved_reachable Hd Hd') as [Habs _].
  - by rewrite Hstatus, Hstatus'.
  - by rewrite Hstatus in Habs.
Qed.

(** C8, as the code has it.  A step never deletes a record and changes at
    most the record it addresses: booking and listing leave every existing
    record as it is, Approve sets the status of the addressed record to
    approved and Reject sets it to rejected, whatever the status was; so a
    status that changes becomes approved or rejected, never pending. *)
Theorem status_transitions cfg req w i d :
  db w !! i = Some d →
  ∃ d', db (after cfg req w) !! i = Some d' ∧
    match req with
    | BookAppointment _ _ _ | GetAppointments => d' = d
    | ApproveAppointment aid _ =>
        (ObjectId aid = inr i → status d' = "approved") ∧ (ObjectId aid ≠ inr i → d' = d)
    | RejectAppointment aid _ =>
        (ObjectId aid = inr i → status d' = "rejected") ∧ (ObjectId aid ≠ inr i → d' = d)
    end ∧
    (status d' ≠ status d → status d' = "approved" ∨ status d' = "rejected").
Proof.
  intros Hd. pose proof (after_db cfg req w) as Hstep.
  destruct req as [data now oid| |aid now|aid now].
  - exists d. split; [|by split].
    destruct Hstep as [-> | [Hfresh [p ->]]]; [done|].
    rewrite lookup_insert_ne; [done|]. intros ->. by rewrite Hfresh in Hd.
  - exists d. rewrite Hstep. by repeat split.
  - destruct Hstep as [[Hsame Habsent] | (oid & doc & Hoid & Hdoc & Hupd)].
    + exists d. rewrite Hsame. repeat split; try done.
      intros Hi. by rewrite (Habsent i Hi) in Hd.
    + rewrite Hupd. destruct (decide (oid = i)) as [-> | Hne].
      * rewrite lookup_insert_eq. eexists. split; [done|]. simpl.
        repeat split; auto. intros Hi. by rewrite Hoid in Hi.
      * rewrite lookup_insert_ne by done. exists d. repeat split; try done.
        rewrite Hoid. by intros [= ?].
  - destruct Hstep as [[Hsame Habsent] | (oid & doc & Hoid & Hdoc & Hupd)].
    + exists d. rewrite Hsame. repeat split; try done.
      intros Hi. by rewrite (Habsent i Hi) in Hd.
    + rewrite Hupd. destruct (decide (oid = i)) as [-> | Hne].
      * rewrite lookup_insert_eq. eexists. split; [done|]. simpl.
        repeat split; auto. intros Hi. by rewrite Hoid in Hi.
      * rewrite lookup_insert_ne by done. exists d. repeat split; try done.
        rewrite Hoid. by intros [= ?].
Qed.

(** C10.  Approve and Reject on an identifier that does not resolve to a
    record: the update matches no document, the fetch gives the null record,
    a field access on it raises, and the handler answers with status 500
    and success=false, message=the text of that exception; the world, and
    so every record of the store, is unchanged. *)
Theorem review_unknown_identifier cfg aid now w oid :
  ObjectId aid = inr oid → db w !! oid = None →
  (∀ set, update_one oid set w = (w, inr 0)) ∧
  find_one oid w = (w, inr None) ∧
  ∃ e,
    subscript None patient_name w = (w, inl e) ∧
    approve_appointment cfg aid now w =
      (w, inr (Response (Message false (str_exn e)) 500)) ∧
    reject_appointment cfg aid now w =
      (w, inr (Response (Message false (str_exn e)) 500)).
Proof.
  intros Hoid Hdoc. repeat split.
  - intros set. unfold update_one. by rewrite Hdoc.
  - unfold find_one. by rewrite Hdoc.
  - eexists. split; [reflexivity|]. split.
    + by apply approve_appointment_absent with oid.
    + by apply reject_appointment_absent with oid.
Qed.

End Transitions.

(** ** Mail failures are not fatal *)

Section MailFailures.

(** Every handler catches what is raised inside it. *)
Lemma handle_returns cfg req w : ∃ resp, (handle cfg req w).2 = inr resp.
Proof.
  destruct req as [data now oid| |aid now|aid now]; simpl.
  - unfold book_appointment. unfold_M.
    destruct (all _); simpl; [|by eexists].
    destruct (data !! "issues"); simpl; [|by eexists].
    destruct (db w !! oid); simpl; [by eexists|].
    run_emails cfg; by eexists.
  - by eexists.
  - destruct (ObjectId aid) as [e|oid] eqn:Hoid.
    + rewrite (approve_appointment_malformed cfg aid now w e Hoid). by eexists.
    + destruct (db w !! oid) as [doc|] eqn:Hdoc.
      * destruct (approve_appointment_existing cfg aid now w oid doc Hoid Hdoc)
          as [w' [-> _]]. by eexists.
      * rewrite (approve_appointment_absent cfg aid now w oid Hoid Hdoc). by eexists.
  - destruct (ObjectId aid) as [e|oid] eqn:Hoid.
    + rewrite (reject_appointment_malformed cfg aid now w e Hoid). by eexists.
    + destruct (db w !! oid) as [doc|] eqn:Hdoc.
      * destruct (reject_appointment_existing cfg aid now w oid doc Hoid Hdoc)
          as [w' [-> _]]. by eexists.
      * rewrite (reject_appointment_absent cfg aid now w oid Hoid Hdoc). by eexists.
Qed.

(** The response and the collection after a request are the same under any
    two configurations, whatever their relays do. *)
Lemma handle_independent_of_mail cfg cfg' req w :
  (handle cfg req w).2 = (handle cfg' req w).2 ∧
  db (handle cfg req w).1 = db (handle cfg' req w).1.
Proof.
  destruct req as [data now oid| |aid now|aid now]; simpl.
  - unfold book_appointment. unfold_M.
    destruct (all _); simpl; [|done].
    destruct (data !! "issues"); simpl; [|done].
    destruct (db w !! oid); simpl; [done|].
    run_emails cfg; run_emails cfg'; done.
  - done.
  - destruct (ObjectId aid) as [e|oid] eqn:Hoid.
    + by rewrite !(approve_appointment_malformed _ aid now w e Hoid).
    + destruct (db w !! oid) as [doc|] eqn:Hdoc.
      * destruct (approve_appointment_existing cfg aid now w oid doc Hoid Hdoc)
          as [w1 [-> Hdb1]].
        destruct (approve_appointment_existing cfg' aid now w oid doc Hoid Hdoc)
          as [w2 [-> Hdb2]].
        simpl. by rewrite Hdb1, Hdb2.
      * by rewrite !(approve_appointment_absent _ aid now w oid Hoid Hdoc).
  - destruct (ObjectId aid) as [e|oid] eqn:Hoid.
    + by rewrite !(reject_appointment_malformed _ aid now w e Hoid).
    + destruct (db w !! oid) as [doc|] eqn:Hdoc.
      * destruct (reject_appointment_existing cfg aid now w oid doc Hoid Hdoc)
          as [w1 [-> Hdb1]].
        destruct (reject_appointment_existing cfg' aid now w oid doc Hoid Hdoc)
          as [w2 [-> Hdb2]].
        simpl. by rewrite Hdb1, Hdb2.
      * by rewrite !(reject_appointment_absent _ aid now w oid Hoid Hdoc).
Qed.

(** C9.  [send_email] always returns a boolean, false exactly when the
    relay raises, and nothing is raised to its caller; the response of
    every handler and the store after it do not depend on what the relay
    does; and a valid booking with a free identifier answers with the
    success response carrying the identifier even when the relay fails for
    every message, both failures being logged and nothing delivered. *)
Theorem mail_failure_not_fatal :
  (∀ cfg to_email subject body w,
     ∃ w' b, send_email cfg to_email subject body w = (w', inr b) ∧
             db w' = db w ∧
             (b = false ↔ is_Some (relay cfg (Email (EMAIL_USER cfg) to_email subject body)))) ∧
  (∀ cfg cfg' req w,
     ∃ resp, reply cfg req w = Some resp ∧ reply cfg' req w = Some resp ∧
             db (after cfg req w) = db (after cfg' req w)) ∧
  (∀ cfg (data : gmap string string) now oid w,
     (∀ msg, is_Some (relay cfg msg)) →
     (∀ f, f ∈ required_fields → ∃ v, data !! f = Some v ∧ v ≠ "") →
     db w !! oid = None →
     ∃ w', book_appointment cfg data now oid w =
             (w', inr (Response
                         (Booked "Form submitted successfully! Email will be sent shortly" oid)
                         200)) ∧
           outbox w' = outbox w ∧
           length (stdout w') = length (stdout w) + 2).
Proof.
  repeat split.
  - intros cfg to_email subject body w. rewrite send_email_run. simpl.
    destruct (relay cfg _) as [e|].
    + eexists _, _. split; [reflexivity|]. simpl. split; [done|].
      split; [by eexists | done].
    + eexists _, _. split; [reflexivity|]. simpl. split; [done|].
      split; [done | by intros [? ?]].
  - intros cfg cfg' req w. unfold reply, after.
    destruct (handle_independent_of_mail cfg cfg' req w) as [Hresp Hdb].
    destruct (handle_returns cfg req w) as [resp Hret].
    exists resp. by rewrite <- Hresp, Hret.
  - intros cfg data now oid w Hfail Hreq Hfree.
    destruct (Hreq "issues") as [issue_text [Hissues _]];
      [unfold required_fields; rewrite !elem_of_cons; auto|].
    unfold book_appointment. unfold_M.
    rewrite (all_required_true data Hreq), Hissues. simpl. rewrite Hfree. simpl.
    do 2 (rewrite send_email_run; simpl;
          match goal with
          | |- context [relay cfg ?m] => destruct (Hfail m) as [? ->]; simpl
          end).
    eexists. split; [reflexivity|]. simpl. split; [done|].
    rewrite !length_app. simpl. lia.
Qed.

End MailFailures.

(** ** Listing *)

Section StableSort.

Context {A : Type}.
Implicit Types (le : A → A → bool) (l : list A).

Lemma insert_sorted_perm le x l : insert_sorted le x l ≡ₚ x :: l.
Proof.
  induction l as [|y l IH]; simpl; [done|].
  destruct (le x y); [done|]. rewrite IH. apply Permutation_swap.
Qed.

Lemma stable_sort_perm le l : stable_sort le l ≡ₚ l.
Proof.
  induction l as [|x l IH]; simpl; [done|].
  rewrite insert_sorted_perm. by rewrite IH.
Qed.

(** Sorting by a total and transitive comparison gives a sorted list. *)
Section Total.

Variable le : A → A → bool.
Hypothesis le_total : ∀ x y, le x y = true ∨ le y x = true.
Hypothesis le_trans : ∀ x y z, le x y = true → le y z = true → le x z = true.

Lemma insert_sorted_sorted x l :
  StronglySorted (λ a b, le a b = true) l →
  StronglySorted (λ a b, le a b = true) (insert_sorted le x l).
Proof.
  induction 1 as [|y l Hl IH Hy]; simpl.
  - repeat constructor.
  - destruct (le x y) eqn:Hxy.
    + constructor; [by constructor|].
      constructor; [done|]. eapply Forall_impl; [exact Hy|].
      intros z Hz. by apply le_trans with y.
    + constructor; [done|]. rewrite insert_sorted_perm.
      constructor; [|done]. destruct (le_total x y); congruence.
Qed.

Lemma stable_sort_sorted l : StronglySorted (λ a b, le a b = true) (stable_sort le l).
Proof.
  induction l as [|x l IH]; simpl; [constructor|]. by apply insert_sorted_sorted.
Qed.

End Total.

(** Sorting by a key, stably, a list that is in some order already: the key
    decides, and among equal keys the earlier order stays. *)
Section ByKey.

Variable key : A → nat.
Variable before : A → A → Prop.

Let by_key (x y : A) : bool := (key x <=? key y)%nat.
Let lex (x y : A) : Prop := key x < key y ∨ (key x = key y ∧ before x y).

Lemma insert_by_key_lex x l :
  StronglySorted lex l → Forall (before x) l →
  StronglySorted lex (insert_sorted by_key x l).
Proof.
  induction 1 as [|y l Hl IH Hy]; intros Hx; simpl.
  - repeat constructor.
  - apply Forall_cons in Hx as [Hxy Hxl]. unfold by_key at 1.
    destruct (key x <=? key y)%nat eqn:Hle.
    + apply Nat.leb_le in Hle. constructor; [by constructor|].
      constructor.
      * unfold lex. destruct (decide (key x = key y)); [by right | left; lia].
      * apply Forall_forall. intros z Hz.
        pose proof (proj1 (Forall_forall _ _) Hy z Hz) as Hyz.
        pose proof (proj1 (Forall_forall _ _) Hxl z Hz) as Hxz.
        unfold lex in *. destruct (decide (key x = key z)); [by right | left; lia].
    + apply Nat.leb_gt in Hle. constructor; [by apply IH|].
      rewrite insert_sorted_perm. constructor; [|done]. left. lia.
Qed.

Lemma sort_by_key_lex l :
  StronglySorted before l → StronglySorted lex (stable_sort by_key l).
Proof.
  induction 1 as [|x l Hl IH Hx]; simpl; [constructor|].
  apply insert_by_key_lex; [done|]. by rewrite stable_sort_perm.
Qed.

Lemma insert_by_key_filter k x l :
  filter (λ a, key a = k) (insert_sorted by_key x l) =
  filter (λ a, key a = k) (x :: l).
Proof.
  induction l as [|y l IH]; simpl; [done|]. unfold by_key at 1.
  destruct (key x <=? key y)%nat eqn:Hle; [done|]. apply Nat.leb_gt in Hle.
  rewrite !filter_cons in *.
  destruct (decide (key y = k)), (decide (key x = k)); try lia; by rewrite IH.
Qed.

Lemma sort_by_key_filter k l :
  filter (λ a, key a = k) (stable_sort by_key l) = filter (λ a, key a = k) l.
Proof.
  induction l as [|x l IH]; simpl; [done|].
  rewrite insert_by_key_filter, !filter_cons, IH. done.
Qed.

End ByKey.

End StableSort.

Section Listing.

Lemma string_compare_le_trans (a b c : string) :
  (a ?= b)%string ≠ Gt → (b ?= c)%string ≠ Gt → (a ?= c)%string ≠ Gt.
Proof.
  revert b c; induction a as [|x a IH]; intros [|y b] [|z c]; simpl; try done.
  unfold Ascii.compare.
  destruct (N.compare_spec (N_of_ascii x) (N_of_ascii y)) as [Hxy|Hxy|Hxy];
    destruct (N.compare_spec (N_of_ascii y) (N_of_ascii z)) as [Hyz|Hyz|Hyz];
    destruct (N.compare_spec (N_of_ascii x) (N_of_ascii z)) as [Hxz|Hxz|Hxz];
    try done; try lia.
  apply IH.
Qed.

Lemma string_leb_trans (a b c : string) :
  (a <=? b)%string = true → (b <=? c)%string = true → (a <=? c)%string = true.
Proof.
  unfold String.leb. intros Hab Hbc.
  pose proof (string_compare_le_trans a b c) as H.
  destruct (a ?= b)%string, (b ?= c)%string, (a ?= c)%string; try done;
    exfalso; by apply H.
Qed.

(** The store answers with every document, latest first. *)
Lemma find_sort_created_at_desc_spec w :
  ∃ l, find_sort_created_at_desc w = (w, inr l) ∧
       l ≡ₚ map_to_list (db w) ∧
       StronglySorted (λ x y, (created_at y.2 <=? created_at x.2)%string = true) l.
Proof.
  eexists. split; [reflexivity|]. split; [apply stable_sort_perm|].
  apply (stable_sort_sorted (λ x y : string * appointment,
                               (created_at y.2 <=? created_at x.2)%string)).
  - intros x y. apply String.leb_total.
  - intros x y z Hxy Hyz. by apply string_leb_trans with (created_at y.2).
Qed.

Lemma priority_rank_table x :
  priority_rank x =
    if decide (priority x.2 = "High") then 0
    else if decide (priority x.2 = "Medium") then 1
    else if decide (priority x.2 = "Low") then 2
    else 3.
Proof.
  unfold priority_rank, priority_order.
  destruct (decide (priority x.2 = "High")) as [-> | Hhigh]; [done|].
  destruct (decide (priority x.2 = "Medium")) as [-> | Hmedium]; [done|].
  destruct (decide (priority x.2 = "Low")) as [-> | Hlow]; [done|].
  rewrite !lookup_insert_ne by done. by rewrite lookup_singleton_ne.
Qed.

(** C6.  The listing answers with all the appointments of the store, each
    once, in an order in which a record of smaller priority rank (High 0,
    Medium 1, Low 2, anything else 3) stands before one of larger rank and,
    among records of equal rank, a record stands before those created no
    later than it; each rank keeps the order of the store's answer, which is
    by created_at descending.  The store is not changed. *)
Theorem get_appointments_order w :
  ∃ l l0,
    get_appointments w = (w, inr (Response (Appointments l) 200)) ∧
    l ≡ₚ map_to_list (db w) ∧
    StronglySorted listed_before l ∧
    find_sort_created_at_desc w = (w, inr l0) ∧
    StronglySorted (λ x y, (created_at y.2 <=? created_at x.2)%string = true) l0 ∧
    (∀ k, filter (λ x, priority_rank x = k) l = filter (λ x, priority_rank x = k) l0) ∧
    (∀ x, priority_rank x =
            if decide (priority x.2 = "High") then 0
            else if decide (priority x.2 = "Medium") then 1
            else if decide (priority x.2 = "Low") then 2
            else 3).
Proof.
  destruct (find_sort_created_at_desc_spec w) as (l0 & Hfind & Hperm & Hsorted).
  exists (stable_sort (λ x y, priority_rank x <=? priority_rank y)%nat l0), l0.
  split; [|split; [|split; [|split; [|split; [|split]]]]].
  - unfold get_appointments. unfold_M. by rewrite Hfind.
  - by rewrite stable_sort_perm.
  - by apply (sort_by_key_lex priority_rank).
  - done.
  - done.
  - intros k. apply (sort_by_key_filter priority_rank).
  - apply priority_rank_table.
Qed.

End Listing.

(** ** The theorems on the sample run *)

Section SampleRun.

Lemma sample_data_complete f :
  f ∈ required_fields → ∃ v, Sample.data !! f = Some v ∧ v ≠ "".
Proof.
  unfold required_fields. rewrite !elem_of_cons, elem_of_nil.
  intros [->|[->|[->|[->|[]]]]]; eexists; (split; [vm_compute; reflexivity | done]).
Defined.

Lemma book_appointment_missing_field_witness :
  "patient_email" ∈ required_fields ∧
  Sample.no_email !! "patient_email" = None ∧
  book_appointment Sample.cfg Sample.no_email "2024-01-15T09:30:00.120000" Sample.oid initial =
    (initial, inr (Response (Message false "All fields are required") 400)).
Proof.
  assert ("patient_email" ∈ required_fields) as Hf by (by vm_compute; repeat constructor).
  assert (Sample.no_email !! "patient_email" = None) as Hv by (vm_compute; reflexivity).
  split; [exact Hf|]. split; [exact Hv|].
  apply (book_appointment_missing_field Sample.cfg Sample.no_email _ _ initial
           "patient_email" Hf (or_introl Hv)).
Defined.

Lemma book_appointment_inserts_witness :
  db initial !! Sample.oid = None ∧
  ∃ w' resp,
    book_appointment Sample.cfg Sample.data "2024-01-15T09:30:00.120000" Sample.oid initial =
      (w', inr resp) ∧
    success resp = true ∧
    db w' !! Sample.oid = Some Sample.record.
Proof.
  assert (db initial !! Sample.oid = None) as Hfree by (vm_compute; reflexivity).
  split; [exact Hfree|].
  destruct (book_appointment_inserts Sample.cfg Sample.data "2024-01-15T09:30:00.120000"
              Sample.oid initial sample_data_complete)
    as (w' & resp & Hrun & Hiff & Hdoc).
  exists w', resp. split; [exact Hrun|]. split; [by apply Hiff|].
  pose proof (f_equal fst Hrun) as Hw'. cbn [fst] in Hw'. rewrite <- Hw'.
  vm_compute. reflexivity.
Defined.

Lemma approve_appointment_pending_witness :
  ObjectId Sample.oid = inr Sample.oid ∧
  db Sample.booked !! Sample.oid = Some Sample.record ∧
  status Sample.record = "pending" ∧
  ∃ w' doc',
    approve_appointment Sample.cfg Sample.oid "2024-01-15T11:00:00.000500" Sample.booked =
      (w', inr (Response (Message true "Appointment approved") 200)) ∧
    db w' = <[Sample.oid := doc']> (db Sample.booked) ∧
    status doc' = "approved" ∧
    google_meet_link doc' = Some "https://meet.google.com/65a4f2c09d".
Proof.
  assert (ObjectId Sample.oid = inr Sample.oid) as Hoid by (vm_compute; reflexivity).
  assert (db Sample.booked !! Sample.oid = Some Sample.record) as Hdoc
    by (vm_compute; reflexivity).
  assert (status Sample.record = "pending") as Hpending by reflexivity.
  split; [exact Hoid|]. split; [exact Hdoc|]. split; [exact Hpending|].
  destruct (approve_appointment_pending Sample.cfg Sample.oid "2024-01-15T11:00:00.000500"
              Sample.booked Sample.oid Sample.record Hoid Hdoc Hpending)
    as (w' & doc' & prefix & rest & Hrun & Hdb & Hstatus & _ & _ & Hlink & _).
  exists w', doc'. split; [exact Hrun|]. split; [exact Hdb|]. split; [exact Hstatus|].
  assert (db w' !! Sample.oid = Some doc') as Hdoc' by (rewrite Hdb; apply lookup_insert_eq).
  pose proof (f_equal fst Hrun) as Hw'. cbn [fst] in Hw'. rewrite <- Hw' in Hdoc'.
  vm_compute in Hdoc'. injection Hdoc' as <-. reflexivity.
Defined.

Lemma reject_appointment_pending_witness :
  reachable Sample.booked ∧
  ObjectId Sample.oid = inr Sample.oid ∧
  db Sample.booked !! Sample.oid = Some Sample.record ∧
  status Sample.record = "pending" ∧
  ∃ w' doc',
    reject_appointment Sample.cfg Sample.oid "2024-01-15T12:00:00.250000" Sample.booked =
      (w', inr (Response (Message true "Appointment rejected") 200)) ∧
    db w' = <[Sample.oid := doc']> (db Sample.booked) ∧
    status doc' = "rejected" ∧
    google_meet_link doc' = None.
Proof.
  assert (reachable Sample.booked) as Hw
    by exact (reachable_after Sample.cfg Sample.book initial reachable_initial).
  assert (ObjectId Sample.oid = inr Sample.oid) as Hoid by (vm_compute; reflexivity).
  assert (db Sample.booked !! Sample.oid = Some Sample.record) as Hdoc
    by (vm_compute; reflexivity).
  assert (status Sample.record = "pending") as Hpending by reflexivity.
  split; [exact Hw|]. split; [exact Hoid|]. split; [exact Hdoc|]. split; [exact Hpending|].
  destruct (reject_appointment_pending Sample.cfg Sample.oid "2024-01-15T12:00:00.250000"
              Sample.booked Sample.oid Sample.record Hw Hoid Hdoc Hpending)
    as (w' & doc' & Hrun & Hdb & Hstatus & _ & _ & _ & Hlink & _).
  by exists w', doc'.
Defined.

Lemma meeting_link_invariant_witness :
  reachable Sample.rejected ∧
  ∃ d, db Sample.rejected !! Sample.oid = Some d ∧
       status d = "rejected" ∧
       google_meet_link d ≠ None ∧ approved_at d ≠ None.
Proof.
  assert (reachable Sample.rejected) as Hw.
  { apply (reachable_after Sample.cfg Sample.reject).
    apply (reachable_after Sample.cfg Sample.approve).
    apply (reachable_after Sample.cfg Sample.book). apply reachable_initial. }
  split; [exact Hw|].
  eexists. split; [vm_compute; reflexivity|]. split; [reflexivity|].
  split; [done|].
  eapply (meeting_link_invariant Sample.rejected Sample.oid _ Hw); [|done].
  vm_compute; reflexivity.
Defined.

Lemma status_transitions_witness :
  ∃ d d',
    db Sample.approved !! Sample.oid = Some d ∧ status d = "approved" ∧
    db (after Sample.cfg Sample.reject Sample.approved) !! Sample.oid = Some d' ∧
    status d' = "rejected".
Proof.
  eexists. 
  assert (ObjectId Sample.oid = inr Sample.oid) as Hoid by (vm_compute; reflexivity).
  edestruct (status_transitions Sample.cfg Sample.reject Sample.approved Sample.oid)
    as (d' & Hd' & [Haddressed _] & _); [vm_compute; reflexivity|].
  exists d'. split; [vm_compute; reflexivity|]. split; [reflexivity|].
  split; [exact Hd' | exact (Haddressed Hoid)].
Defined.

Lemma review_unknown_identifier_witness :
  ObjectId Sample.oid = inr Sample.oid ∧
  db initial !! Sample.oid = None ∧
  approve_appointment Sample.cfg Sample.oid "2024-01-15T11:00:00.000500" initial =
    (initial, inr (Response (Message false "'NoneType' object is not subscriptable") 500)) ∧
  reject_appointment Sample.cfg Sample.oid "2024-01-15T12:00:00.250000" initial =
    (initial, inr (Response (Message false "'NoneType' object is not subscriptable") 500)).
Proof.
  assert (ObjectId Sample.oid = inr Sample.oid) as Hoid by (vm_compute; reflexivity).
  assert (db initial !! Sample.oid = None) as Hfree by (vm_compute; reflexivity).
  split; [exact Hoid|]. split; [exact Hfree|].
  destruct (review_unknown_identifier Sample.cfg Sample.oid "2024-01-15T11:00:00.000500"
              initial Sample.oid Hoid Hfree) as (_ & _ & e & Hsub & Happrove & _).
  destruct (review_unknown_identifier Sample.cfg Sample.oid "2024-01-15T12:00:00.250000"
              initial Sample.oid Hoid Hfree) as (_ & _ & e' & Hsub' & _ & Hreject).
  injection Hsub as <-. injection Hsub' as <-. by split.
Defined.

Lemma mail_failure_not_fatal_witness :
  ∃ w',
    book_appointment Sample.offline Sample.data "2024-01-15T09:30:00.120000" Sample.oid
      initial =
      (w', inr (Response
                  (Booked "Form submitted successfully! Email will be sent shortly"
                     Sample.oid) 200)) ∧
    outbox w' = [] ∧ length (stdout w') = 2.
Proof.
  destruct mail_failure_not_fatal as (_ & _ & Hbook).
  apply (Hbook Sample.offline Sample.data "2024-01-15T09:30:00.120000" Sample.oid initial).
  - intros msg. by eexists.
  - exact sample_data_complete.
  - vm_compute; reflexivity.
Defined.

End SampleRun.

(** * Further properties *)

(** ** The classifier on longer and on lower-cased texts *)

Section ClassifierMore.

Lemma string_app_assoc (a b c : string) : (a ++ b) ++ c = a ++ b ++ c.
Proof.
  induction a as [|x a IH]; [done|].
  change (String x ((a ++ b) ++ c) = String x (a ++ b ++ c)). by f_equal.
Qed.

Lemma lower_app (a b : string) : Str.lower (a ++ b) = Str.lower a ++ Str.lower b.
Proof.
  induction a as [|x a IH]; [done|].
  change (String (Str.lower_char x) (Str.lower (a ++ b)) =
          String (Str.lower_char x) (Str.lower a ++ Str.lower b)).
  by f_equal.
Qed.



Lemma mentions_any ks s :
  mentions ks s ↔ any (λ k, Str.contains k (Str.lower s)) ks = true.
Proof. unfold mentions. by rewrite any_contains_spec. Qed.

Lemma mentions_embed ks s pre post : mentions ks s → mentions ks (pre ++ s ++ post).
Proof.
  unfold mentions. rewrite !Exists_exists. intros (k & Hk & a & b & Hab).
  exists k. split; [done|]. exists (Str.lower pre ++ a), (b ++ Str.lower post).
  rewrite !lower_app, Hab, !string_app_assoc. done.
Qed.

(** Text put before and after an issue text never lowers its priority: High
    stays High, Medium stays Medium or becomes High, and a text classified
    Low has only Low parts. *)
Theorem calculate_priority_monotone (s pre post : string) :
  (calculate_priority s = "High" → calculate_priority (pre ++ s ++ post) = "High") ∧
  (calculate_priority s = "Medium" →
     calculate_priority (pre ++ s ++ post) ∈ ["Medium"; "High"]) ∧
  (calculate_priority (pre ++ s ++ post) = "Low" → calculate_priority s = "Low").
Proof.
  pose proof (mentions_embed urgent_keywords s pre post) as Hu.
  pose proof (mentions_embed high_keywords s pre post) as Hh.
  rewrite !mentions_any in Hu, Hh. rewrite !calculate_priority_cases.
  set (u := any (λ k, Str.contains k (Str.lower s)) urgent_keywords) in *.
  set (h := any (λ k, Str.contains k (Str.lower s)) high_keywords) in *.
  set (u' := any (λ k, Str.contains k (Str.lower (pre ++ s ++ post))) urgent_keywords) in *.
  set (h' := any (λ k, Str.contains k (Str.lower (pre ++ s ++ post))) high_keywords) in *.
  clearbody u h u' h'.
  destruct u, h, u', h'; repeat split;
    first [ done
          | by (intros; rewrite !elem_of_cons; auto)
          | by specialize (Hu eq_refl)
          | by specialize (Hh eq_refl) ].
Qed.


End ClassifierMore.

(** ** Booking: validation, a taken identifier, the two mails *)

Section BookingMore.




(** A booking whose identifier is already in the store is refused by the
    store: the answer is 500 with the text of the exception, which is also
    logged; the record that has the identifier stays as it is, nothing else
    is stored and no mail is sent. *)
Theorem book_appointment_identifier_taken cfg (data : gmap string string) now oid w old :
  (∀ f, f ∈ required_fields → ∃ v, data !! f = Some v ∧ v ≠ "") →
  db w !! oid = Some old →
  ∃ e,
    book_appointment cfg data now oid w =
      (World (db w) (stdout w ++ ["Error: " ++ str_exn e]) (outbox w),
       inr (Response (Message false (str_exn e)) 500)).
Proof.
  intros Hreq Hold.
  destruct (Hreq "issues") as [issue_text [Hissues _]];
    [unfold required_fields; rewrite !elem_of_cons; auto|].
  unfold book_appointment. unfold_M.
  rewrite (all_required_true data Hreq), Hissues. simpl. rewrite Hold.
  by exists (DuplicateKeyError oid).
Qed.

(** A booking that is stored attempts two mails, in this order: the
    confirmation to the submitted patient address, and the notice to
    [DOCTOR_EMAIL] whose subject ends with the computed priority.  The ones
    the relay lets through are delivered, the others are logged, and the
    answer is the same in all cases. *)
Theorem book_appointment_mails cfg (data : gmap string string) now oid w :
  (∀ f, f ∈ required_fields → ∃ v, data !! f = Some v ∧ v ≠ "") →
  db w !! oid = None →
  ∃ w' issue_text to_patient to_doctor,
    book_appointment cfg data now oid w =
      (w', inr (Response
                  (Booked "Form submitted successfully! Email will be sent shortly" oid)
                  200)) ∧
    data !! "issues" = Some issue_text ∧
    to_patient =
      Email (EMAIL_USER cfg) (data !! "patient_email") "Appointment Booking Received"
        (BookingConfirmation (data !! "patient_name") (data !! "preferred_time")
           (data !! "issues") (calculate_priority issue_text)) ∧
    to_doctor =
      Email (EMAIL_USER cfg) (DOCTOR_EMAIL cfg)
        ("New Appointment - Priority: " ++ calculate_priority issue_text)
        (NewAppointmentRequest (data !! "patient_name") (data !! "patient_email")
           (data !! "issues") (data !! "preferred_time")
           (calculate_priority issue_text)) ∧
    outbox w' =
      (outbox w ++ (if delivered cfg to_patient then [to_patient] else [])
                ++ (if delivered cfg to_doctor then [to_doctor] else []))%list ∧
    stdout w' = (stdout w ++ mail_log cfg to_patient ++ mail_log cfg to_doctor)%list.
Proof.
  intros Hreq Hfree.
  destruct (Hreq "issues") as [issue_text [Hissues _]];
    [unfold required_fields; rewrite !elem_of_cons; auto|].
  unfold book_appointment. unfold_M.
  rewrite (all_required_true data Hreq), Hissues. simpl. rewrite Hfree. simpl.
  unfold delivered, mail_log. rewrite !send_email_run. simpl.
  destruct (relay cfg _) eqn:Hfirst; simpl; rewrite send_email_run; simpl;
    destruct (relay cfg (Email _ _ ("New Appointment - Priority: " ++ _) _)) eqn:Hsecond;
    simpl; eexists _, issue_text, _, _;
    (split; [reflexivity|]); (split; [reflexivity|]);
    (split; [reflexivity|]); (split; [reflexivity|]);
    rewrite ?Hissues in *; rewrite Hfirst, Hsecond; simpl;
    rewrite <- ?app_assoc, ?app_nil_r; done.
Qed.

End BookingMore.

(** ** What every request does: answers, failures, the size of the store *)

Section HandlersMore.

Lemma all_required_true_inv (data : gmap string string) :
  all [truthy (data !! "patient_name"); truthy (data !! "patient_email");
       truthy (data !! "issues"); truthy (data !! "preferred_time")] = true →
  truthy (data !! "patient_name") = true ∧ truthy (data !! "patient_email") = true ∧
  truthy (data !! "issues") = true ∧ truthy (data !! "preferred_time") = true.
Proof.
  unfold all. simpl. unfold id. rewrite !andb_true_iff. tauto.
Qed.

(** The two ways a booking ends. *)
Lemma book_appointment_outcome cfg (data : gmap string string) now oid w :
  ∃ w' resp,
    book_appointment cfg data now oid w = (w', inr resp) ∧
    ((success resp = false ∧ status_code resp ∈ [400; 500] ∧
      db w' = db w ∧ outbox w' = outbox w) ∨
     (success resp = true ∧ status_code resp = 200 ∧ db w !! oid = None ∧
      truthy (data !! "patient_name") = true ∧ truthy (data !! "patient_email") = true ∧
      truthy (data !! "preferred_time") = true ∧
      ∃ issue_text,
        data !! "issues" = Some issue_text ∧ issue_text ≠ "" ∧
        db w' = <[oid := Appointment (data !! "patient_name") (data !! "patient_email")
                           (data !! "issues") (data !! "preferred_time")
                           (calculate_priority issue_text)
                           "pending" now false None None None]> (db w))).
Proof.
  unfold book_appointment. unfold_M.
  destruct (all _) eqn:Hall.
  - apply all_required_true_inv in Hall as (Hname & Hemail & Hissues & Htime).
    apply truthy_Some_nonempty in Hissues as (issue_text & Hissues & Hnonempty).
    rewrite Hissues. simpl.
    destruct (db w !! oid) eqn:Hold; simpl.
    + eexists _, _. split; [reflexivity|]. left. simpl.
      rewrite !elem_of_cons. auto.
    + run_emails cfg; eexists _, _; (split; [reflexivity|]); right; simpl;
        repeat (split; [done|]); by exists issue_text.
  - eexists _, _. split; [reflexivity|]. left. simpl. rewrite !elem_of_cons. auto.
Qed.

Lemma approve_appointment_outcome cfg aid now w :
  ∃ w' resp,
    approve_appointment cfg aid now w = (w', inr resp) ∧
    ((success resp = false ∧ status_code resp = 500 ∧ w' = w) ∨
     (success resp = true ∧ status_code resp = 200 ∧
      ∃ oid doc, ObjectId aid = inr oid ∧ db w !! oid = Some doc ∧
        db w' = <[oid := set_approved (meet_link_of aid) now doc]> (db w))).
Proof.
  destruct (ObjectId aid) as [e|oid] eqn:Hoid.
  - rewrite (approve_appointment_malformed cfg aid now w e Hoid).
    eexists _, _. split; [reflexivity|]. by left.
  - destruct (db w !! oid) as [doc|] eqn:Hdoc.
    + destruct (approve_appointment_existing cfg aid now w oid doc Hoid Hdoc)
        as [w' [-> Hdb]].
      eexists _, _. split; [reflexivity|]. right. simpl.
      repeat (split; [done|]). by exists oid, doc.
    + rewrite (approve_appointment_absent cfg aid now w oid Hoid Hdoc).
      eexists _, _. split; [reflexivity|]. by left.
Qed.

Lemma reject_appointment_outcome cfg aid now w :
  ∃ w' resp,
    reject_appointment cfg aid now w = (w', inr resp) ∧
    ((success resp = false ∧ status_code resp = 500 ∧ w' = w) ∨
     (success resp = true ∧ status_code resp = 200 ∧
      ∃ oid doc, ObjectId aid = inr oid ∧ db w !! oid = Some doc ∧
        db w' = <[oid := set_rejected now doc]> (db w))).
Proof.
  destruct (ObjectId aid) as [e|oid] eqn:Hoid.
  - rewrite (reject_appointment_malformed cfg aid now w e Hoid).
    eexists _, _. split; [reflexivity|]. by left.
  - destruct (db w !! oid) as [doc|] eqn:Hdoc.
    + destruct (reject_appointment_existing cfg aid now w oid doc Hoid Hdoc)
        as [w' [-> Hdb]].
      eexists _, _. split; [reflexivity|]. right. simpl.
      repeat (split; [done|]). by exists oid, doc.
    + rewrite (reject_appointment_absent cfg aid now w oid Hoid Hdoc).
      eexists _, _. split; [reflexivity|]. by left.
Qed.


(** The success flag and the HTTP status agree: every request is answered
    with 200, 400 or 500, success is true exactly for 200, and only the
    booking endpoint answers 400. *)
Theorem response_codes cfg req w :
  ∃ resp,
    reply cfg req w = Some resp ∧
    (success resp = true ↔ status_code resp = 200) ∧
    status_code resp ∈ [200; 400; 500] ∧
    (status_code resp = 400 → ∃ data now oid, req = BookAppointment data now oid).
Proof.
  unfold reply. destruct req as [data now oid| |aid now|aid now]; simpl.
  - destruct (book_appointment_outcome cfg data now oid w)
      as (w' & r & -> & [(Hfail & Hcode & _) | (Hok & Hcode & _)]); simpl;
      exists r; (split; [done|]).
    + rewrite Hfail. rewrite !elem_of_cons, elem_of_nil in Hcode.
      split; [|split].
      * split; [done|]. intros H200. rewrite H200 in Hcode.
        by destruct Hcode as [? | [? | ?]].
      * rewrite !elem_of_cons. destruct Hcode as [-> | [-> | []]]; auto.
      * intros _. eauto.
    + rewrite Hok, Hcode, !elem_of_cons. split; [done|]. split; [auto | done].
  - eexists. split; [reflexivity|]. simpl. rewrite !elem_of_cons.
    split; [done|]. split; [auto | done].
  - destruct (approve_appointment_outcome cfg aid now w)
      as (w' & r & -> & [(Hfail & Hcode & _) | (Hok & Hcode & _)]); simpl;
      exists r; (split; [done|]); rewrite Hcode, !elem_of_cons.
    + rewrite Hfail. split; [done|]. split; [auto | done].
    + rewrite Hok. split; [done|]. split; [auto | done].
  - destruct (reject_appointment_outcome cfg aid now w)
      as (w' & r & -> & [(Hfail & Hcode & _) | (Hok & Hcode & _)]); simpl;
      exists r; (split; [done|]); rewrite Hcode, !elem_of_cons.
    + rewrite Hfail. split; [done|]. split; [auto | done].
    + rewrite Hok. split; [done|]. split; [auto | done].
Qed.

(** The number of stored records grows by one with each successful booking
    and is changed by nothing else: no request removes a record, and a
    review replaces a record in place. *)
Theorem store_size_after cfg req w :
  ∃ resp,
    reply cfg req w = Some resp ∧
    size (db (after cfg req w)) =
      size (db w) + match req with
                    | BookAppointment _ _ _ => if success resp then 1 else 0
                    | _ => 0
                    end.
Proof.
  unfold reply, after. destruct req as [data now oid| |aid now|aid now]; simpl.
  - destruct (book_appointment_outcome cfg data now oid w)
      as (w' & r & -> & [(Hfail & _ & Hdb & _) | (Hok & _ & Hfree & _ & _ & _ & s & _ & _ & Hdb)]);
      simpl; exists r; (split; [done|]).
    + rewrite Hfail, Hdb. lia.
    + rewrite Hok, Hdb, map_size_insert_None by done. lia.
  - eexists. split; [reflexivity|]. simpl. lia.
  - destruct (approve_appointment_outcome cfg aid now w)
      as (w' & r & -> & [(_ & _ & ->) | (_ & _ & oid & doc & _ & Hdoc & Hdb)]);
      simpl; exists r; (split; [done|]).
    + lia.
    + rewrite Hdb, map_size_insert_Some by eauto. lia.
  - destruct (reject_appointment_outcome cfg aid now w)
      as (w' & r & -> & [(_ & _ & ->) | (_ & _ & oid & doc & _ & Hdoc & Hdb)]);
      simpl; exists r; (split; [done|]).
    + lia.
    + rewrite Hdb, map_size_insert_Some by eauto. lia.
Qed.

End HandlersMore.

(** ** What the store keeps true of its records *)

Section RecordsMore.

(** No request changes what was submitted with a booking: for a record of the
    store, the four submitted values, the priority computed from them and
    the creation time are the same after any request. *)
Theorem submitted_fields_immutable cfg req w i d :
  db w !! i = Some d →
  ∃ d',
    db (after cfg req w) !! i = Some d' ∧
    patient_name d' = patient_name d ∧
    patient_email d' = patient_email d ∧
    issues d' = issues d ∧
    preferred_time d' = preferred_time d ∧
    priority d' = priority d ∧
    created_at d' = created_at d.
Proof.
  intros Hd. pose proof (after_db cfg req w) as Hstep.
  destruct req as [data now oid| |aid now|aid now].
  - exists d. split; [|done].
    destruct Hstep as [-> | [Hfree [p ->]]]; [done|].
    rewrite lookup_insert_ne; [done|]. intros ->. by rewrite Hfree in Hd.
  - exists d. by rewrite Hstep.
  - destruct Hstep as [[-> _] | (oid & doc & _ & Hdoc & ->)]; [by exists d|].
    destruct (decide (oid = i)) as [-> | Hne].
    + rewrite lookup_insert_eq. eexists. split; [done|].
      rewrite Hd in Hdoc. by injection Hdoc as ->.
    + rewrite lookup_insert_ne by done. by exists d.
  - destruct Hstep as [[-> _] | (oid & doc & _ & Hdoc & ->)]; [by exists d|].
    destruct (decide (oid = i)) as [-> | Hne].
    + rewrite lookup_insert_eq. eexists. split; [done|].
      rewrite Hd in Hdoc. by injection Hdoc as ->.
    + rewrite lookup_insert_ne by done. by exists d.
Qed.

Lemma reachable_records_submitted w :
  reachable w → ∀ i d, db w !! i = Some d →
  truthy (patient_name d) = true ∧ truthy (patient_email d) = true ∧
  truthy (preferred_time d) = true ∧
  ∃ issue_text, issues d = Some issue_text ∧ issue_text ≠ "" ∧
                priority d = calculate_priority issue_text.
Proof.
  induction 1 as [|cfg req w Hw IH]; intros i d Hd.
  - simpl in Hd. by rewrite lookup_empty in Hd.
  - destruct req as [data now oid| |aid now|aid now].
    + unfold after in Hd. simpl in Hd.
      destruct (book_appointment_outcome cfg data now oid w)
        as (w' & r & Hrun & [(_ & _ & Hdb & _) |
                             (_ & _ & _ & Hn & He & Ht & s & Hs & Hne & Hdb)]);
        rewrite Hrun in Hd; simpl in Hd; rewrite Hdb in Hd.
      * eauto.
      * apply lookup_insert_Some in Hd as [[_ <-] | [_ Hd]]; [|eauto].
        simpl. repeat (split; [done|]). by exists s.
    + pose proof (after_db cfg GetAppointments w) as Hstep. simpl in Hstep.
      rewrite Hstep in Hd. eauto.
    + pose proof (after_db cfg (ApproveAppointment aid now) w) as Hstep.
      simpl in Hstep.
      destruct Hstep as [[Hsame _] | (oid & doc & _ & Hdoc & Hupd)];
        [rewrite Hsame in Hd; eauto|].
      rewrite Hupd in Hd. apply lookup_insert_Some in Hd as [[_ <-] | [_ Hd]];
        [simpl; by apply (IH oid doc) | eauto].
    + pose proof (after_db cfg (RejectAppointment aid now) w) as Hstep.
      simpl in Hstep.
      destruct Hstep as [[Hsame _] | (oid & doc & _ & Hdoc & Hupd)];
        [rewrite Hsame in Hd; eauto|].
      rewrite Hupd in Hd. apply lookup_insert_Some in Hd as [[_ <-] | [_ Hd]];
        [simpl; by apply (IH oid doc) | eauto].
Qed.

Lemma calculate_priority_values s : calculate_priority s ∈ ["High"; "Medium"; "Low"].
Proof.
  rewrite calculate_priority_cases, !elem_of_cons.
  destruct (any _ urgent_keywords); [auto|]. destruct (any _ high_keywords); auto.
Qed.

Lemma priority_rank_known x :
  priority x.2 ∈ ["High"; "Medium"; "Low"] → (priority_rank x ≤ 2)%nat.
Proof.
  rewrite priority_rank_table, !elem_of_cons, elem_of_nil. intros Hin.
  repeat case_decide; try lia. tauto.
Qed.

Lemma reachable_priority_rank w i d :
  reachable w → db w !! i = Some d → (priority_rank (i, d) ≤ 2)%nat.
Proof.
  intros Hw Hd. apply priority_rank_known. simpl.
  destruct (reachable_records_submitted w Hw i d Hd) as (_ & _ & _ & s & _ & _ & ->).
  apply calculate_priority_values.
Qed.


(** In a reachable store the flags of a record agree with its status: the
    status is pending, approved or rejected; doctor_approved is true exactly
    for approved; a pending record has neither review time stamp, an
    approved one has approved_at and a rejected one has rejected_at. *)
Theorem status_flags_agree w i d :
  reachable w → db w !! i = Some d →
  status d ∈ ["pending"; "approved"; "rejected"] ∧
  (doctor_approved d = true ↔ status d = "approved") ∧
  (status d = "pending" → approved_at d = None ∧ rejected_at d = None) ∧
  (status d = "approved" → is_Some (approved_at d)) ∧
  (status d = "rejected" → is_Some (rejected_at d)).
Proof.
  intros Hw Hd.
  destruct (reachable_lifecycle_ok w Hw i d Hd) as (Hs & Hflag & Hp & Ha & Hr & _).
  done.
Qed.

End RecordsMore.

(** ** Review: the mail, the identifier from the booking, repeated reviews *)

Section ReviewMore.

Lemma lower_hex_digit c :
  is_lower_hex_digit c = true → is_hex_digit c = true ∧ Str.lower_char c = c.
Proof. destruct c as [[] [] [] [] [] [] [] []]; by vm_compute. Qed.

Lemma lower_hex_string s :
  forallb is_lower_hex_digit (list_ascii_of_string s) = true →
  forallb is_hex_digit (list_ascii_of_string s) = true ∧ Str.lower s = s.
Proof.
  induction s as [|c s IH]; simpl; [done|].
  rewrite !andb_true_iff. intros [Hc Hs].
  destruct (lower_hex_digit c Hc) as [-> ->]. destruct (IH Hs) as [-> ->]. done.
Qed.

(** Reading back an identifier made by the driver gives the identifier. *)
Lemma ObjectId_driver_made oid : driver_made oid = true → ObjectId oid = inr oid.
Proof.
  unfold driver_made, ObjectId. rewrite andb_true_iff. intros [-> Hhex].
  by destruct (lower_hex_string oid Hhex) as [-> ->].
Qed.

Lemma book_appointment_stored cfg (data : gmap string string) now oid w :
  (∀ f, f ∈ required_fields → ∃ v, data !! f = Some v ∧ v ≠ "") →
  db w !! oid = None →
  ∃ w' issue_text,
    book_appointment cfg data now oid w =
      (w', inr (Response
                  (Booked "Form submitted successfully! Email will be sent shortly" oid)
                  200)) ∧
    data !! "issues" = Some issue_text ∧
    db w' = <[oid := Appointment (data !! "patient_name") (data !! "patient_email")
                       (data !! "issues") (data !! "preferred_time")
                       (calculate_priority issue_text)
                       "pending" now false None None None]> (db w).
Proof.
  intros Hreq Hfree.
  destruct (Hreq "issues") as [issue_text [Hissues _]];
    [unfold required_fields; rewrite !elem_of_cons; auto|].
  unfold book_appointment. unfold_M.
  rewrite (all_required_true data Hreq), Hissues. simpl. rewrite Hfree. simpl.
  run_emails cfg; by eexists _, issue_text.
Qed.

Lemma after_approve_db cfg aid now w oid doc :
  ObjectId aid = inr oid → db w !! oid = Some doc →
  db (after cfg (ApproveAppointment aid now) w) =
    <[oid := set_approved (meet_link_of aid) now doc]> (db w).
Proof.
  intros Hoid Hdoc. unfold after. simpl.
  by destruct (approve_appointment_existing cfg aid now w oid doc Hoid Hdoc) as [w' [-> Hdb]].
Qed.

Lemma after_reject_db cfg aid now w oid doc :
  ObjectId aid = inr oid → db w !! oid = Some doc →
  db (after cfg (RejectAppointment aid now) w) = <[oid := set_rejected now doc]> (db w).
Proof.
  intros Hoid Hdoc. unfold after. simpl.
  by destruct (reject_appointment_existing cfg aid now w oid doc Hoid Hdoc) as [w' [-> Hdb]].
Qed.

(** Approve on an existing record attempts exactly one mail: to the patient
    address stored with the record, with the stored name and time and the
    very meeting link that is written into the record.  It is delivered or
    logged, and the answer is the same. *)
Theorem approve_appointment_mail cfg aid now w oid doc :
  ObjectId aid = inr oid → db w !! oid = Some doc →
  ∃ w' confirmation d',
    approve_appointment cfg aid now w =
      (w', inr (Response (Message true "Appointment approved") 200)) ∧
    confirmation =
      Email (EMAIL_USER cfg) (patient_email doc) "Appointment Confirmed"
        (AppointmentConfirmed (patient_name doc) (preferred_time doc) (meet_link_of aid)) ∧
    db w' !! oid = Some d' ∧
    google_meet_link d' = Some (meet_link_of aid) ∧
    outbox w' = (outbox w ++ if delivered cfg confirmation then [confirmation] else [])%list ∧
    stdout w' = (stdout w ++ mail_log cfg confirmation)%list.
Proof.
  intros Hoid Hdoc. unfold approve_appointment. unfold_M.
  rewrite Hoid. simpl. rewrite Hdoc. simpl. rewrite lookup_insert_eq. simpl.
  unfold delivered, mail_log. rewrite send_email_run. simpl.
  destruct (relay cfg _) eqn:Hrelay; simpl; eexists _, _, _;
    (split; [reflexivity|]); (split; [reflexivity|]); simpl;
    rewrite lookup_insert_eq, Hrelay; simpl; rewrite ?app_nil_r; done.
Qed.

(** Reject on an existing record attempts exactly one mail: to the patient
    address stored with the record, with the stored name and the fixed
    reschedule link.  It is delivered or logged, and the answer is the
    same. *)
Theorem reject_appointment_mail cfg aid now w oid doc :
  ObjectId aid = inr oid → db w !! oid = Some doc →
  ∃ w' notice,
    reject_appointment cfg aid now w =
      (w', inr (Response (Message true "Appointment rejected") 200)) ∧
    notice =
      Email (EMAIL_USER cfg) (patient_email doc) "Appointment Rescheduling Required"
        (AppointmentUpdate (patient_name doc) reschedule_link) ∧
    outbox w' = (outbox w ++ if delivered cfg notice then [notice] else [])%list ∧
    stdout w' = (stdout w ++ mail_log cfg notice)%list.
Proof.
  intros Hoid Hdoc. unfold reject_appointment. unfold_M.
  rewrite Hoid. simpl. rewrite Hdoc. simpl. rewrite lookup_insert_eq. simpl.
  unfold delivered, mail_log. rewrite send_email_run. simpl.
  destruct (relay cfg _) eqn:Hrelay; simpl; eexists _, _;
    (split; [reflexivity|]); (split; [reflexivity|]); simpl;
    rewrite Hrelay; simpl; rewrite ?app_nil_r; done.
Qed.

(** The identifier that a booking answers with can be used as it is: when
    the driver made it, Approve and Reject on the returned appointment_id
    find the record just stored and succeed. *)
Theorem booked_identifier_resolves cfg (data : gmap string string) now oid w later :
  (∀ f, f ∈ required_fields → ∃ v, data !! f = Some v ∧ v ≠ "") →
  db w !! oid = None → driver_made oid = true →
  ∃ w1 appointment_id,
    book_appointment cfg data now oid w =
      (w1, inr (Response
                  (Booked "Form submitted successfully! Email will be sent shortly"
                     appointment_id) 200)) ∧
    (∃ w2 d,
       approve_appointment cfg appointment_id later w1 =
         (w2, inr (Response (Message true "Appointment approved") 200)) ∧
       db w2 !! oid = Some d ∧ status d = "approved" ∧ created_at d = now) ∧
    (∃ w2 d,
       reject_appointment cfg appointment_id later w1 =
         (w2, inr (Response (Message true "Appointment rejected") 200)) ∧
       db w2 !! oid = Some d ∧ status d = "rejected" ∧ created_at d = now).
Proof.
  intros Hreq Hfree Hmade.
  destruct (book_appointment_stored cfg data now oid w Hreq Hfree)
    as (w1 & issue_text & Hrun & _ & Hdb).
  pose proof (ObjectId_driver_made oid Hmade) as Hoid.
  assert (∃ doc, db w1 !! oid = Some doc ∧ created_at doc = now) as (doc & Hdoc & Hnow).
  { rewrite Hdb, lookup_insert_eq. by eexists. }
  exists w1, oid. split; [done|]. split.
  - destruct (approve_appointment_existing cfg oid later w1 oid doc Hoid Hdoc)
      as (w2 & Happrove & Hdb2).
    exists w2, (set_approved (meet_link_of oid) later doc).
    rewrite Hdb2, lookup_insert_eq. done.
  - destruct (reject_appointment_existing cfg oid later w1 oid doc Hoid Hdoc)
      as (w2 & Hreject & Hdb2).
    exists w2, (set_rejected later doc).
    rewrite Hdb2, lookup_insert_eq. done.
Qed.

(** Reviews can be repeated and the last one decides.  A second Approve or a
    second Reject leaves the store as the last one alone would; Reject after
    Approve gives a rejected record that keeps approved_at and the meeting
    link; Approve after Reject gives an approved record that keeps
    rejected_at. *)
Theorem review_repeated cfg aid first second w oid doc :
  ObjectId aid = inr oid → db w !! oid = Some doc →
  db (after cfg (ApproveAppointment aid second) (after cfg (ApproveAppointment aid first) w)) =
    db (after cfg (ApproveAppointment aid second) w) ∧
  db (after cfg (RejectAppointment aid second) (after cfg (RejectAppointment aid first) w)) =
    db (after cfg (RejectAppointment aid second) w) ∧
  (∃ d,
     db (after cfg (RejectAppointment aid second) (after cfg (ApproveAppointment aid first) w))
       !! oid = Some d ∧
     status d = "rejected" ∧ doctor_approved d = false ∧
     approved_at d = Some first ∧ rejected_at d = Some second ∧
     google_meet_link d = Some (meet_link_of aid)) ∧
  (∃ d,
     db (after cfg (ApproveAppointment aid second) (after cfg (RejectAppointment aid first) w))
       !! oid = Some d ∧
     status d = "approved" ∧ doctor_approved d = true ∧
     rejected_at d = Some first ∧ approved_at d = Some second ∧
     google_meet_link d = Some (meet_link_of aid)).
Proof.
  intros Hoid Hdoc.
  pose proof (after_approve_db cfg aid first w oid doc Hoid Hdoc) as Ha.
  pose proof (after_reject_db cfg aid first w oid doc Hoid Hdoc) as Hr.
  assert (db (after cfg (ApproveAppointment aid first) w) !! oid =
          Some (set_approved (meet_link_of aid) first doc)) as Hda
    by (rewrite Ha; apply lookup_insert_eq).
  assert (db (after cfg (RejectAppointment aid first) w) !! oid =
          Some (set_rejected first doc)) as Hdr
    by (rewrite Hr; apply lookup_insert_eq).
  repeat split.
  - rewrite (after_approve_db cfg aid second _ oid _ Hoid Hda), Ha, insert_insert_eq.
    by rewrite (after_approve_db cfg aid second w oid doc Hoid Hdoc).
  - rewrite (after_reject_db cfg aid second _ oid _ Hoid Hdr), Hr, insert_insert_eq.
    by rewrite (after_reject_db cfg aid second w oid doc Hoid Hdoc).
  - rewrite (after_reject_db cfg aid second _ oid _ Hoid Hda), lookup_insert_eq.
    by eexists.
  - rewrite (after_approve_db cfg aid second _ oid _ Hoid Hdr), lookup_insert_eq.
    by eexists.
Qed.

(** A path segment that does not have 24 characters is no identifier: both
    review handlers answer 500 with the text of the exception and leave the
    world as it is; they do not reach the store. *)
Theorem review_malformed_identifier cfg aid now w :
  String.length aid ≠ 24 →
  ∃ e,
    approve_appointment cfg aid now w =
      (w, inr (Response (Message false (str_exn e)) 500)) ∧
    reject_appointment cfg aid now w =
      (w, inr (Response (Message false (str_exn e)) 500)).
Proof.
  intros Hlen.
  assert (ObjectId aid = inl (InvalidId aid)) as Hoid.
  { unfold ObjectId. by destruct (Nat.eqb_spec (String.length aid) 24). }
  exists (InvalidId aid). split.
  - by apply approve_appointment_malformed.
  - by apply reject_appointment_malformed.
Qed.

End ReviewMore.

(** ** Listing: what is listed, and the blocks of the answer *)

Section ListingMore.

(** Inserting past a prefix of smaller keys, and in front of keys that are
    not smaller. *)
Lemma insert_sorted_past {A} (key : A → nat) x (a b : list A) :
  Forall (λ y, (key y < key x)%nat) a →
  insert_sorted (λ u v, (key u <=? key v)%nat) x (a ++ b) =
    (a ++ insert_sorted (λ u v, (key u <=? key v)%nat) x b)%list.
Proof.
  induction 1 as [|y a Hy Ha IH]; simpl; [done|].
  destruct (Nat.leb_spec (key x) (key y)); [lia|]. by rewrite IH.
Qed.

Lemma insert_sorted_front {A} (key : A → nat) x (b : list A) :
  Forall (λ y, (key x ≤ key y)%nat) b →
  insert_sorted (λ u v, (key u <=? key v)%nat) x b = x :: b.
Proof.
  destruct 1 as [|y b Hy Hb]; simpl; [done|].
  destruct (Nat.leb_spec (key x) (key y)); [done|lia].
Qed.

Lemma Forall_filter_lt {A} (key : A → nat) x k (l : list A) :
  (k < key x)%nat → Forall (λ y, (key y < key x)%nat) (filter (λ y, key y = k) l).
Proof.
  intros Hk. apply Forall_forall. intros y Hy.
  apply list_elem_of_filter in Hy as [-> _]. done.
Qed.

Lemma Forall_filter_ge {A} (key : A → nat) x k (l : list A) :
  (key x ≤ k)%nat → Forall (λ y, (key x ≤ key y)%nat) (filter (λ y, key y = k) l).
Proof.
  intros Hk. apply Forall_forall. intros y Hy.
  apply list_elem_of_filter in Hy as [-> _]. done.
Qed.

(** A stable sort by a key with values 0 to 3 puts the elements of key 0
    first, then those of key 1, of key 2 and of key 3, each group in the
    order it had. *)
Lemma stable_sort_four_blocks {A} (key : A → nat) (l : list A) :
  (∀ x, (key x ≤ 3)%nat) →
  stable_sort (λ u v, (key u <=? key v)%nat) l =
    (filter (λ x, key x = 0) l ++ filter (λ x, key x = 1) l ++
     filter (λ x, key x = 2) l ++ filter (λ x, key x = 3) l)%list.
Proof.
  intros Hkey. induction l as [|x l IH]; [done|].
  simpl. rewrite IH, !filter_cons. clear IH.
  pose proof (Hkey x) as Hx.
  destruct (decide (key x = 0)) as [H0|H0].
  { repeat (case_decide; [lia|]). rewrite insert_sorted_front; [done|].
    apply Forall_forall. intros; lia. }
  rewrite insert_sorted_past by (apply Forall_filter_lt; lia). f_equal.
  destruct (decide (key x = 1)) as [H1|H1].
  { repeat (case_decide; [lia|]). rewrite insert_sorted_front; [done|].
    rewrite !Forall_app. repeat split; apply Forall_filter_ge; lia. }
  rewrite insert_sorted_past by (apply Forall_filter_lt; lia). f_equal.
  destruct (decide (key x = 2)) as [H2|H2].
  { repeat (case_decide; [lia|]). rewrite insert_sorted_front; [done|].
    rewrite !Forall_app. repeat split; apply Forall_filter_ge; lia. }
  rewrite insert_sorted_past by (apply Forall_filter_lt; lia). f_equal.
  case_decide; [|lia].
  rewrite insert_sorted_front; [done|]. apply Forall_filter_ge; lia.
Qed.

Lemma priority_rank_bound x : (priority_rank x ≤ 3)%nat.
Proof. rewrite priority_rank_table. repeat case_decide; lia. Qed.

Lemma rank_block p k (l : list (string * appointment)) :
  (p, k) ∈ [("High", 0); ("Medium", 1); ("Low", 2)] →
  filter (λ x, priority_rank x = k) l = with_priority p l.
Proof.
  intros Hpk. unfold with_priority. apply list_filter_iff. intros x.
  rewrite priority_rank_table. rewrite !elem_of_cons, elem_of_nil in Hpk.
  destruct Hpk as [[= -> ->] | [[= -> ->] | [[= -> ->] | []]]];
    repeat case_decide; split; intros; try done; try lia; congruence.
Qed.

(** The listing lists exactly the stored records, each once and under its
    identifier: a pair is in the answer if and only if the store holds that
    record under that identifier, no identifier occurs twice, and there are
    as many entries as records.  The listing leaves the world as it is. *)
Theorem get_appointments_members w :
  ∃ l,
    get_appointments w = (w, inr (Response (Appointments l) 200)) ∧
    (∀ i d, (i, d) ∈ l ↔ db w !! i = Some d) ∧
    NoDup l.*1 ∧
    length l = size (db w).
Proof.
  destruct (find_sort_created_at_desc_spec w) as (l0 & Hfind & Hperm & _).
  exists (stable_sort (λ x y, priority_rank x <=? priority_rank y)%nat l0).
  assert (stable_sort (λ x y, priority_rank x <=? priority_rank y)%nat l0
            ≡ₚ map_to_list (db w)) as Hl
    by (by rewrite stable_sort_perm).
  split; [|split; [|split]].
  - unfold get_appointments. unfold_M. by rewrite Hfind.
  - intros i d. by rewrite Hl, elem_of_map_to_list.
  - rewrite Hl. apply NoDup_fst_map_to_list.
  - by rewrite Hl, length_map_to_list.
Qed.

(** The answer of the listing is made of four blocks: the High records,
    then the Medium ones, then the Low ones, then those with any other
    priority, each block in the order of the store's answer (latest first).
    In a reachable store the last block is empty. *)
Theorem get_appointments_blocks w :
  ∃ l l0,
    get_appointments w = (w, inr (Response (Appointments l) 200)) ∧
    find_sort_created_at_desc w = (w, inr l0) ∧
    l = (with_priority "High" l0 ++ with_priority "Medium" l0 ++
         with_priority "Low" l0 ++ filter (λ x, priority_rank x = 3) l0)%list ∧
    (reachable w → filter (λ x, priority_rank x = 3) l0 = []).
Proof.
  destruct (find_sort_created_at_desc_spec w) as (l0 & Hfind & Hperm & _).
  exists (stable_sort (λ x y, priority_rank x <=? priority_rank y)%nat l0), l0.
  split; [|split; [done|split]].
  - unfold get_appointments. unfold_M. by rewrite Hfind.
  - rewrite (stable_sort_four_blocks priority_rank l0 priority_rank_bound).
    rewrite (rank_block "High" 0), (rank_block "Medium" 1), (rank_block "Low" 2);
      rewrite ?elem_of_cons; auto.
  - intros Hw.
    destruct (filter (λ x, priority_rank x = 3) l0) as [|[i d] rest] eqn:Hblock; [done|].
    assert ((i, d) ∈ filter (λ x, priority_rank x = 3) l0) as Hin
      by (rewrite Hblock; left).
    apply list_elem_of_filter in Hin as [Hrank Hin].
    rewrite Hperm in Hin. apply elem_of_map_to_list in Hin.
    pose proof (reachable_priority_rank w i d Hw Hin). lia.
Qed.

End ListingMore.

(** ** The further properties on the sample runs *)

Section FurtherRuns.


Lemma sample_rejected_reachable_run : reachable Sample.rejected.
Proof.
  apply (reachable_after Sample.cfg Sample.reject).
  apply (reachable_after Sample.cfg Sample.approve).
  apply (reachable_after Sample.cfg Sample.book). apply reachable_initial.
Defined.

Lemma book_appointment_identifier_taken_witness :
  db Sample.booked !! Sample.oid = Some Sample.record ∧
  ∃ e,
    book_appointment Sample.cfg Ward.fever "2024-01-15T09:41:07.003000" Sample.oid
      Sample.booked =
      (World (db Sample.booked) (stdout Sample.booked ++ ["Error: " ++ str_exn e])
         (outbox Sample.booked),
       inr (Response (Message false (str_exn e)) 500)).
Proof.
  assert (db Sample.booked !! Sample.oid = Some Sample.record) as Hold
    by (vm_compute; reflexivity).
  split; [exact Hold|].
  apply (book_appointment_identifier_taken Sample.cfg Ward.fever _ Sample.oid
           Sample.booked Sample.record); [|exact Hold].
  unfold required_fields. intros f. rewrite !elem_of_cons, elem_of_nil.
  intros [->|[->|[->|[->|[]]]]]; eexists; (split; [vm_compute; reflexivity | done]).
Defined.

Lemma book_appointment_mails_witness :
  db initial !! Sample.oid = None ∧
  ∃ w' to_patient to_doctor,
    book_appointment Sample.cfg Sample.data "2024-01-15T09:30:00.120000" Sample.oid initial =
      (w', inr (Response
                  (Booked "Form submitted successfully! Email will be sent shortly"
                     Sample.oid) 200)) ∧
    mail_to to_patient = Some "ann@example.org" ∧
    mail_to to_doctor = Some "doctor@example.org" ∧
    mail_subject to_doctor = "New Appointment - Priority: High" ∧
    outbox w' = [to_patient; to_doctor] ∧
    stdout w' = [].
Proof.
  assert (db initial !! Sample.oid = None) as Hfree by (vm_compute; reflexivity).
  split; [exact Hfree|].
  destruct (book_appointment_mails Sample.cfg Sample.data "2024-01-15T09:30:00.120000"
              Sample.oid initial sample_data_complete Hfree)
    as (w' & issue_text & to_patient & to_doctor & Hrun & Hissues & Hp & Hd & Hout & Hlog).
  vm_compute in Hissues. injection Hissues as <-.
  exists w', to_patient, to_doctor. split; [exact Hrun|].
  rewrite Hout, Hlog, Hp, Hd. repeat split; vm_compute; reflexivity.
Defined.


Lemma submitted_fields_immutable_witness :
  db Sample.booked !! Sample.oid = Some Sample.record ∧
  ∃ d',
    db Sample.approved !! Sample.oid = Some d' ∧
    patient_email d' = Some "ann@example.org" ∧
    priority d' = "High" ∧
    created_at d' = "2024-01-15T09:30:00.120000".
Proof.
  assert (db Sample.booked !! Sample.oid = Some Sample.record) as Hd
    by (vm_compute; reflexivity).
  split; [exact Hd|].
  destruct (submitted_fields_immutable Sample.cfg Sample.approve Sample.booked Sample.oid
              Sample.record Hd) as (d' & Hd' & _ & He & _ & _ & Hp & Hc).
  exists d'. split; [exact Hd'|]. by rewrite He, Hp, Hc.
Defined.


Lemma status_flags_agree_witness :
  reachable Sample.rejected ∧
  ∃ d,
    db Sample.rejected !! Sample.oid = Some d ∧
    status d = "rejected" ∧
    doctor_approved d = false ∧
    is_Some (rejected_at d).
Proof.
  split; [exact sample_rejected_reachable_run|].
  assert (∃ d, db Sample.rejected !! Sample.oid = Some d ∧ status d = "rejected" ∧
               doctor_approved d = false) as (d & Hd & Hs & Hflag)
    by (eexists; repeat split; vm_compute; reflexivity).
  destruct (status_flags_agree Sample.rejected Sample.oid d sample_rejected_reachable_run Hd)
    as (_ & _ & _ & _ & Hr).
  exists d. repeat (split; [done|]). by apply Hr.
Defined.

Lemma approve_appointment_mail_witness :
  ObjectId Sample.oid = inr Sample.oid ∧
  db Sample.booked !! Sample.oid = Some Sample.record ∧
  ∃ w' confirmation,
    approve_appointment Sample.cfg Sample.oid "2024-01-15T11:00:00.000500" Sample.booked =
      (w', inr (Response (Message true "Appointment approved") 200)) ∧
    mail_to confirmation = Some "ann@example.org" ∧
    mail_body confirmation =
      AppointmentConfirmed (Some "Ann Lee") (Some "2024-01-16T10:00")
        "https://meet.google.com/65a4f2c09d" ∧
    outbox w' = (outbox Sample.booked ++ [confirmation])%list.
Proof.
  assert (ObjectId Sample.oid = inr Sample.oid) as Hoid by (vm_compute; reflexivity).
  assert (db Sample.booked !! Sample.oid = Some Sample.record) as Hdoc
    by (vm_compute; reflexivity).
  split; [exact Hoid|]. split; [exact Hdoc|].
  destruct (approve_appointment_mail Sample.cfg Sample.oid "2024-01-15T11:00:00.000500"
              Sample.booked Sample.oid Sample.record Hoid Hdoc)
    as (w' & confirmation & d' & Hrun & Hm & _ & _ & Hout & _).
  exists w', confirmation. split; [exact Hrun|].
  rewrite Hout, Hm. repeat split; vm_compute; reflexivity.
Defined.

Lemma reject_appointment_mail_witness :
  ObjectId Sample.oid = inr Sample.oid ∧
  db Sample.booked !! Sample.oid = Some Sample.record ∧
  ∃ w' notice,
    reject_appointment Sample.offline Sample.oid "2024-01-15T12:00:00.250000" Sample.booked =
      (w', inr (Response (Message true "Appointment rejected") 200)) ∧
    mail_to notice = Some "ann@example.org" ∧
    outbox w' = outbox Sample.booked ∧
    stdout w' = (stdout Sample.booked ++ ["Email error: [Errno 111] Connection refused"])%list.
Proof.
  assert (ObjectId Sample.oid = inr Sample.oid) as Hoid by (vm_compute; reflexivity).
  assert (db Sample.booked !! Sample.oid = Some Sample.record) as Hdoc
    by (vm_compute; reflexivity).
  split; [exact Hoid|]. split; [exact Hdoc|].
  destruct (reject_appointment_mail Sample.offline Sample.oid "2024-01-15T12:00:00.250000"
              Sample.booked Sample.oid Sample.record Hoid Hdoc)
    as (w' & notice & Hrun & Hm & Hout & Hlog).
  exists w', notice. split; [exact Hrun|].
  rewrite Hout, Hlog, Hm. repeat split; vm_compute; reflexivity.
Defined.

Lemma booked_identifier_resolves_witness :
  db initial !! Sample.oid = None ∧
  driver_made Sample.oid = true ∧
  ∃ w1 appointment_id w2,
    book_appointment Sample.cfg Sample.data "2024-01-15T09:30:00.120000" Sample.oid initial =
      (w1, inr (Response
                  (Booked "Form submitted successfully! Email will be sent shortly"
                     appointment_id) 200)) ∧
    approve_appointment Sample.cfg appointment_id "2024-01-15T11:00:00.000500" w1 =
      (w2, inr (Response (Message true "Appointment approved") 200)).
Proof.
  assert (db initial !! Sample.oid = None) as Hfree by (vm_compute; reflexivity).
  assert (driver_made Sample.oid = true) as Hmade by (vm_compute; reflexivity).
  split; [exact Hfree|]. split; [exact Hmade|].
  destruct (booked_identifier_resolves Sample.cfg Sample.data "2024-01-15T09:30:00.120000"
              Sample.oid initial "2024-01-15T11:00:00.000500"
              sample_data_complete Hfree Hmade)
    as (w1 & appointment_id & Hbook & (w2 & d & Happrove & _) & _).
  by exists w1, appointment_id, w2.
Defined.

Lemma review_repeated_witness :
  ObjectId Sample.oid = inr Sample.oid ∧
  db Sample.booked !! Sample.oid = Some Sample.record ∧
  ∃ d,
    db Sample.rejected !! Sample.oid = Some d ∧
    status d = "rejected" ∧
    approved_at d = Some "2024-01-15T11:00:00.000500" ∧
    rejected_at d = Some "2024-01-15T12:00:00.250000" ∧
    google_meet_link d = Some "https://meet.google.com/65a4f2c09d".
Proof.
  assert (ObjectId Sample.oid = inr Sample.oid) as Hoid by (vm_compute; reflexivity).
  assert (db Sample.booked !! Sample.oid = Some Sample.record) as Hdoc
    by (vm_compute; reflexivity).
  split; [exact Hoid|]. split; [exact Hdoc|].
  destruct (review_repeated Sample.cfg Sample.oid "2024-01-15T11:00:00.000500"
              "2024-01-15T12:00:00.250000" Sample.booked Sample.oid Sample.record Hoid Hdoc)
    as (_ & _ & (d & Hd & Hs & _ & Ha & Hr & Hlink) & _).
  exists d. split; [exact Hd|]. by rewrite Hs, Ha, Hr, Hlink.
Defined.

Lemma review_malformed_identifier_witness :
  String.length Ward.short_id ≠ 24 ∧
  ∃ e,
    approve_appointment Sample.cfg Ward.short_id "2024-01-15T11:00:00.000500" Sample.booked =
      (Sample.booked, inr (Response (Message false (str_exn e)) 500)) ∧
    reject_appointment Sample.cfg Ward.short_id "2024-01-15T11:00:00.000500" Sample.booked =
      (Sample.booked, inr (Response (Message false (str_exn e)) 500)).
Proof.
  assert (String.length Ward.short_id ≠ 24) as Hlen by (vm_compute; lia).
  split; [exact Hlen|].
  exact (review_malformed_identifier Sample.cfg Ward.short_id "2024-01-15T11:00:00.000500"
           Sample.booked Hlen).
Defined.

End FurtherRuns.
